(** * Connection management core of the QUIC endpoint: model and properties

    A shallow embedding of [server.go], [client.go] and [transport/config.go]:
    the retry-token address validator ([addressValidator.Generate] and
    [addressValidator.Validate]), the server and client dispatch routines
    ([Server.recv], [Client.recv]), server admission ([Server.negotiate],
    [Server.retry], [Server.handleNewConn], [Server.newConn]) and client
    admission ([Client.Connect], [Client.newConn]).

    Byte slices are [list byte]; Go integers are [Z] with their wrap-around
    written out; the peer registry [map[string]*remoteConn] is a [gmap] keyed
    by the CID bytes; calls that touch the outside world (socket, packet pool,
    logger, channels, goroutines) are recorded as a list of events. *)

From Stdlib Require Import ZArith Lia Strings.String Strings.Byte.
From stdpp Require Import base numbers option list gmap strings.

Local Open Scope Z_scope.

(** ** Go runtime: a call either returns or panics *)

Inductive go (A : Type) : Type :=
| Ret (a : A)
| Panic.
Arguments Ret {A} a.
Arguments Panic {A}.

Definition go_bind {A B : Type} (m : go A) (k : A -> go B) : go B :=
  match m with
  | Ret a => k a
  | Panic => Panic
  end.

Notation "x <~ m ;; k" := (go_bind m (fun x => k))
  (at level 100, m at next level, right associativity).

#[global] Instance byte_eq_dec : EqDecision byte := Byte.byte_eq_dec.
#[global] Instance byte_countable : Countable byte :=
  inj_countable Byte.to_N Byte.of_N Byte.of_to_N.

(** Go's [len] as an [int]. *)
Abbreviation len l := (Z.of_nat (length l)).

(** ** Bytes and fixed-width integers *)

Module bytes.
(** Go's [byte(v)] conversion keeps the low eight bits. *)
Definition of_Z (z : Z) : byte :=
  default x00 (Byte.of_N (Z.to_N (z mod 256))).

Definition to_Z (b : byte) : Z := Z.of_N (Byte.to_N b).

(** [make([]byte, n)]: n zero bytes. *)
Definition make (n : nat) : list byte := replicate n x00.

(** [copy(dst, src)] overwrites the first [min (len dst) (len src)]
    elements of [dst]; the result is the new content of [dst]. *)
Definition copy (dst src : list byte) : list byte :=
  take (length dst) src ++ drop (length src) dst.

(** [append(dst[:0], xs...)] where [dst] is the spare capacity behind an
    empty slice: the bytes land in place when they fit, otherwise the
    runtime allocates a new array and the old one keeps its content.
    The result is the content of the old backing region. *)
Definition append_in_place (region xs : list byte) : list byte :=
  if (length xs <=? length region)%nat
  then xs ++ drop (length xs) region
  else region.

Definition of_string (s : string) : list byte := list_byte_of_string s.
End bytes.

(** [uint32(x)] of a signed integer: the low 32 bits. *)
Definition uint32 (x : Z) : Z := x mod 2 ^ 32.

(** An [int64] result wraps around in two's complement. *)
Definition int64 (x : Z) : Z := (x + 2 ^ 63) mod 2 ^ 64 - 2 ^ 63.

Definition is_int64 (x : Z) : Prop := - 2 ^ 63 <= x < 2 ^ 63.

(** ** encoding/binary, big endian *)

Module BigEndian.
(** [PutUint32(b, v)] panics (index out of range) when [len b < 4]. *)
Definition PutUint32 (b : list byte) (v : Z) : go (list byte) :=
  if (length b <? 4)%nat then Panic
  else Ret ([ bytes.of_Z (Z.shiftr v 24); bytes.of_Z (Z.shiftr v 16);
              bytes.of_Z (Z.shiftr v 8); bytes.of_Z v ] ++ drop 4 b).

(** [Uint32(b)] panics when [len b < 4]. *)
Definition Uint32 (b : list byte) : go Z :=
  match b with
  | b0 :: b1 :: b2 :: b3 :: _ =>
      Ret (Z.lor (Z.lor (Z.lor (bytes.to_Z b3)
                               (Z.shiftl (bytes.to_Z b2) 8))
                        (Z.shiftl (bytes.to_Z b1) 16))
                 (Z.shiftl (bytes.to_Z b0) 24))
  | _ => Panic
  end.
End BigEndian.

(** ** net.Addr *)

Record Addr := {
  addr_Network : string;
  addr_String : string;
}.

(** ** Errors, results, logging *)

Inductive error :=
| ErrExternal (msg : string)               (* from a collaborator *)
| ErrClientClosed                          (* "client is closed" *)
| ErrConflict (scid : list byte)           (* "connection id conflict scid=%x" *)
| ErrSend (to : Addr) (cause : error)      (* "send %s: %v" *)
| ErrGenerateCID (cause : error).          (* "generate connection id: %v" *)

Inductive result (A : Type) : Type :=
| Ok (a : A)
| Err (e : error).
Arguments Ok {A} a.
Arguments Err {A} e.

Inductive Level := LevelError | LevelInfo | LevelDebug | LevelTrace.

(** ** transport/config.go, and the engine behind it *)

Module transport.
Definition ProtocolVersion : Z := 0xff000000 + 29.
Definition MaxCIDLength : Z := 20.
Definition MaxIPv6PacketSize : Z := 1232.
Definition MaxIPv4PacketSize : Z := 1252.
Definition MaxPacketSize : Z := 65527.
Definition MinInitialPacketSize : Z := 1200.

Definition versionSupported (ver : Z) : bool := ver =? ProtocolVersion.

(** The routing header filled in by [Header.Decode]. *)
Record Header := {
  Type_ : Z;
  Version : Z;
  DCID : list byte;
  SCID : list byte;
  Token : list byte;
}.

(** Modelled from the spec: the protocol engine instance ([transport.Conn])
    is declared outside these files and is opaque to the core; an instance
    is known by the role and the identifiers it was created with. *)
Inductive Conn :=
| accepting (scid odcid : list byte)
| connecting (scid : list byte).

(** Modelled from the spec: the engine operations the core calls
    ([Header.Decode], [transport.NegotiateVersion], [transport.Retry],
    [transport.Accept], [transport.Connect]) live outside these files.
    Each returns an error or its result; the endpoint's configuration is
    fixed and left implicit. *)
Class Engine := {
  Decode : list byte -> Z -> result Header;
  NegotiateVersion : list byte -> list byte -> result (list byte);
  Retry : list byte -> list byte -> list byte -> list byte -> result (list byte);
  Accept : list byte -> list byte -> result Conn;
  Connect : list byte -> result Conn;
}.
End transport.

(** ** crypto/cipher.AEAD

    [Seal dst nonce plaintext ad] appends the sealed bytes to [dst];
    [aead_Seal] gives the appended bytes. [Open nil nonce ct ad] returns the
    plaintext or an error; [aead_Open] gives [None] for the error. *)

Record AEAD := {
  aead_NonceSize : nat;
  aead_Overhead : nat;
  aead_Seal : list byte -> list byte -> list byte -> list byte;
  aead_Open : list byte -> list byte -> list byte -> option (list byte);
}.

(** ** server.go: the address validator *)

Module addressValidator.
Record t := {
  aead : AEAD;
  nonce : list byte;   (* First 4 bytes is current time *)
}.

Definition validity : Z := 10.

(** [copy(nonce[4:], s.nonce[4:])] on a buffer whose first four bytes
    already hold the timestamp. Slicing at 4 panics (slice bounds out of
    range) when the buffer is shorter than four bytes. *)
Definition fill_tail (s : t) (buf : list byte)
  : go (list byte) :=
  if (length buf <? 4)%nat then Panic
  else Ret (take 4 buf ++ bytes.copy (drop 4 buf) (drop 4 (nonce s))).

(** [Generate]; [now] is the value of [s.timeFn().Unix()]. *)
Definition Generate (s : t) (now : Z)
    (addr : Addr) (odcid : list byte) : go (list byte) :=
  nonce0 <~ BigEndian.PutUint32 (bytes.make (length (nonce s))) (uint32 now) ;;
  nonce1 <~ fill_tail s nonce0 ;;
  token0 <~ BigEndian.PutUint32
              (bytes.make (4 + length odcid + aead_Overhead (aead s)))
              (uint32 now) ;;
  let sealed := aead_Seal (aead s) nonce1 odcid
                  (bytes.of_string (addr_String addr)) in
  Ret (take 4 token0 ++ bytes.append_in_place (drop 4 token0) sealed).

(** [Validate]; the empty list is Go's nil/empty slice (invalid). *)
Definition Validate (s : t) (now : Z)
    (addr : Addr) (token : list byte) : go (list byte) :=
  if (length token <? 4)%nat then Ret []
  else
    issued <~ BigEndian.Uint32 token ;;
    if (issued <? int64 (now - validity)) || (issued >? now) then Ret []
    else
      let nonce0 := bytes.copy (bytes.make (length (nonce s))) (take 4 token) in
      nonce1 <~ fill_tail s nonce0 ;;
      match aead_Open (aead s) nonce1 (drop 4 token)
              (bytes.of_string (addr_String addr)) with
      | None => Ret []
      | Some odcid => Ret odcid
      end.
End addressValidator.

(** ** The endpoint's data *)

(** Modelled from the spec: the pooled packet buffer (declared outside
    these files): the received bytes, the sender and the decoded routing
    header; [ptr] is the identity of the pooled buffer. *)
Record packet := {
  ptr : nat;
  data : list byte;
  addr : Addr;
  header : transport.Header;
}.

Definition set_header (p : packet) (h : transport.Header) : packet :=
  {| ptr := ptr p; data := data p; addr := addr p; header := h |}.

Definition set_Token (h : transport.Header) (tok : list byte) : transport.Header :=
  {| transport.Type_ := transport.Type_ h;
     transport.Version := transport.Version h;
     transport.DCID := transport.DCID h;
     transport.SCID := transport.SCID h;
     transport.Token := tok |}.

(** Modelled from the spec: the connection handle (declared outside these
    files): local CID, remote address, engine instance. The local CID is
    an array of [MaxCIDLength] bytes (a fixed maximum length is used for
    all connections). Its inbound queue [recvCh] shows up as events. *)
Record remoteConn := {
  scid : list byte;
  rc_addr : Addr;
  conn : transport.Conn;
}.

(** Modelled from the spec: the endpoint state shared by both roles
    (declared outside these files), as far as these files read or write
    it: the closing flag and the registry keyed by local CID. *)
Record localConn := {
  closing : bool;
  peers : gmap (list byte) remoteConn;
}.

Definition set_peers (s : localConn) (m : gmap (list byte) remoteConn) : localConn :=
  {| closing := closing s; peers := m |}.

(** The [AddressValidator] interface; each method reads the clock, given
    here as the first argument. *)
Record AddressValidator := {
  Generate : Z -> Addr -> list byte -> go (list byte);
  Validate : Z -> Addr -> list byte -> go (list byte);
}.

(** [NewAddressValidator]'s implementation of the interface. *)
Definition simpleValidator (v : addressValidator.t) : AddressValidator :=
  {| Generate := addressValidator.Generate v;
     Validate := addressValidator.Validate v |}.

(** What a call does to the outside world, in program order. The packet
    pool, the connection's queue and routine ([handleConn], [sendConn]), the
    socket and the logger are outside these files, so a call to one of them
    is recorded, not run. *)
Inductive event :=
| Log (lvl : Level) (format : string)
| RLock | RUnlock | Lock | Unlock               (* s.peersMu *)
| newPacket (k : nat)                           (* k := newPacket() *)
| freePacket (k : nat)                          (* freePacket(k) *)
| recvCh_send (c : remoteConn) (p : packet)     (* c.recvCh <- p *)
| go_handleNewConn (p : packet)                 (* go s.handleNewConn(p) *)
| handleConn (c : remoteConn)                   (* s.handleConn(c) *)
| go_handleConn (c : remoteConn)                (* go s.handleConn(c) *)
| WriteTo (b : list byte) (to : Addr)           (* s.socket.WriteTo(b, to) *)
| sendConn (c : remoteConn).                    (* s.sendConn(c, buf) *)

(** What the outside world answers during one call: the clock, the random
    source ([None]: it fails), the socket, the resolver. *)
Record env := {
  env_now : Z;
  env_rand : option (nat -> byte);
  env_write : option error;        (* error of socket.WriteTo, if any *)
  env_send : option error;         (* error of sendConn, if any *)
  env_resolve : string -> result Addr;
}.

(** Modelled from the spec: the randomness source [s.rand] (a field of the
    endpoint state, outside these files) fills all of [b] or fails. *)
Definition rand_fill (e : env) (b : list byte) : result (list byte) :=
  match env_rand e with
  | Some f => Ok (f <$> seq 0 (length b))
  | None => Err (ErrExternal "rand")
  end.

(** Modelled from the spec: the packet pool ([newPacket], [freePacket]) is
    outside these files; acquiring hands out a buffer nobody holds. [live]
    are the buffers handed out and not yet released. *)
Definition pool_get (live : gset nat) : nat := fresh live.

(** Modelled from the spec: [newRemoteConn] is outside these files; the
    local CID of a fresh handle is [MaxCIDLength] zero bytes. *)
Definition zero_scid : list byte := bytes.make (Z.to_nat transport.MaxCIDLength).

(** ** server.go *)

Module Server.
Record t := {
  lc : localConn;
  addrValid : option AddressValidator;
}.

Definition set_lc (s : t) (l : localConn) : t :=
  {| lc := l; addrValid := addrValid s |}.

Section server.
Context `{E : transport.Engine}.

Definition negotiate (e : env) (live : gset nat) (a : Addr)
    (h : transport.Header) : list event :=
  let k := pool_get live in
  [newPacket k] ++
  match transport.NegotiateVersion (transport.SCID h) (transport.DCID h) with
  | Err _ => [Log LevelError "%s negotiate: %s %v"]
  | Ok b =>
      [WriteTo b a] ++
      match env_write e with
      | Some _ => [Log LevelError "%s negotiate: %s %v"]
      | None => [Log LevelDebug "%s negotiate: newversion=%d %s";
                 Log LevelTrace "%s sent %d bytes\n%x"]
      end
  end ++ [freePacket k].

Definition recv (e : env) (live : gset nat) (s : t) (p : packet)
  : list event :=
  match transport.Decode (data p) transport.MaxCIDLength with
  | Err _ =>
      [Log LevelDebug "%s could not decode packet: %v"; freePacket (ptr p)]
  | Ok h =>
      let p := set_header p h in
      [Log LevelDebug "%s received packet %s"; RLock] ++
      if closing (lc s) then
        (* Do not process packet when closing *)
        [RUnlock; freePacket (ptr p)]
      else
        match peers (lc s) !! transport.DCID (header p) with
        | Some c => [RUnlock; recvCh_send c p]
        | None =>
            [RUnlock] ++
            if negb (transport.Type_ (header p) =? 0)
               || (len (data p) <? transport.MinInitialPacketSize)
            then [Log LevelDebug "%s dropped invalid initial packet: %s";
                  freePacket (ptr p)]
            else if negb (transport.Version (header p)
                          =? transport.ProtocolVersion)
            then negotiate e live (addr p) (header p)
                 ++ [freePacket (ptr p)]
            else [go_handleNewConn p]
        end
  end.

(** [retry] also stores the token in the header it was given. *)
Definition retry (e : env) (live : gset nat) (v : AddressValidator)
    (a : Addr) (h : transport.Header)
  : go (transport.Header * list event) :=
  let k := pool_get live in
  match rand_fill e zero_scid with
  | Err _ =>
      Ret (h, [newPacket k; Log LevelError "%s retry: %s %v"; freePacket k])
  | Ok newCID =>
      tok <~ Generate v (env_now e) a (transport.DCID h) ;;
      let h := set_Token h tok in
      Ret (h,
        [newPacket k] ++
        match transport.Retry (transport.SCID h) newCID (transport.DCID h)
                (transport.Token h) with
        | Err _ => [Log LevelError "%s retry: %s %v"]
        | Ok b =>
            [WriteTo b a] ++
            match env_write e with
            | Some _ => [Log LevelError "%s retry: %s %v"]
            | None => [Log LevelDebug "%s retry: %v newcid=%x";
                       Log LevelTrace "%s sent %d bytes\n%x"]
            end
        end ++ [freePacket k])
  end.

Definition verifyToken (e : env) (v : AddressValidator) (a : Addr)
    (token : list byte) : go (list byte) :=
  Validate v (env_now e) a token.

Definition newConn (e : env) (a : Addr) (scid_arg odcid : list byte)
  : result remoteConn :=
  let c_scid := zero_scid in
  let filled :=
    if len scid_arg =? len c_scid then Ok (bytes.copy c_scid scid_arg)
    else
      (* Generate id for new connection since short packets don't
         include CID length so we use MaxCIDLength for all connections *)
      rand_fill e c_scid in
  match filled with
  | Err err => Err err
  | Ok id =>
      match transport.Accept id odcid with
      | Err err => Err err
      | Ok engine => Ok {| scid := id; rc_addr := a; conn := engine |}
      end
  end.

(** [handleNewConn] from the call of [s.newConn] to its end. *)
Definition enroll (e : env) (s : t) (p : packet) (odcid : list byte)
  : t * list event :=
  match newConn e (addr p) (transport.DCID (header p)) odcid with
  | Err _ =>
      (s, [Log LevelError "%s create connection: %v"; freePacket (ptr p)])
  | Ok c =>
      if closing (lc s) then
        (* Do not create a new handler when server is closing *)
        (s, [Lock; Unlock; freePacket (ptr p)])
      else
        match peers (lc s) !! scid c with
        | Some _ =>
            (s, [Lock; Unlock;
                 Log LevelError "%s connection id conflict scid=%x";
                 freePacket (ptr p)])
        | None =>
            (set_lc s (set_peers (lc s) (<[scid c := c]> (peers (lc s)))),
             [Lock; Unlock;
              Log LevelDebug "%s new connection scid=%x odcid=%x";
              recvCh_send c p; handleConn c])
        end
  end.

Definition handleNewConn (e : env) (live : gset nat) (s : t) (p : packet)
  : go (t * list event) :=
  match addrValid s with
  | Some v =>
      (* Retry token *)
      if len (transport.Token (header p)) =? 0 then
        r <~ retry e live v (addr p) (header p) ;;
        Ret (s, snd r ++ [freePacket (ptr p)])
      else
        odcid <~ verifyToken e v (addr p) (transport.Token (header p)) ;;
        if len odcid =? 0 then
          Ret (s, [Log LevelInfo "%s invalid retry token: %v";
                   freePacket (ptr p)])
        else Ret (enroll e s p odcid)
  | None => Ret (enroll e s p [])
  end.

(** One datagram taken through [recv] and, when [recv] started it, the
    admission routine, run to its end before anything else happens. *)
Definition deliver (e : env) (live : gset nat) (s : t) (p : packet)
  : go (t * list event) :=
  let evs := recv e live s p in
  match last evs with
  | Some (go_handleNewConn p') =>
      r <~ handleNewConn e live s p' ;;
      Ret (fst r, evs ++ snd r)
  | _ => Ret (s, evs)
  end.
End server.
End Server.

(** ** client.go *)

Module Client.
Definition t := localConn.

Section client.
Context `{E : transport.Engine}.

Definition recv (s : t) (p : packet) : list event :=
  match transport.Decode (data p) transport.MaxCIDLength with
  | Err _ =>
      [Log LevelInfo "%s could not parse packet: %v"; freePacket (ptr p)]
  | Ok h =>
      let p := set_header p h in
      [Log LevelDebug "%s received packet %s"; RLock] ++
      if closing s then
        (* Server is closing *)
        [RUnlock]
      else
        match peers s !! transport.DCID (header p) with
        | Some c => [RUnlock; recvCh_send c p]
        | None =>
            [RUnlock;
             Log LevelDebug "%s ignore unknown destination packet: %s";
             freePacket (ptr p)]
        end
  end.

Definition newConn (e : env) (a : string) : result remoteConn :=
  match env_resolve e a with
  | Err err => Err err
  | Ok udpAddr =>
      match rand_fill e zero_scid with
      | Err err => Err (ErrGenerateCID err)
      | Ok id =>
          match transport.Connect id with
          | Err err => Err err
          | Ok engine =>
              Ok {| scid := id; rc_addr := udpAddr; conn := engine |}
          end
      end
  end.

(** [Connect]: the new state, the events, and the returned error
    ([None] for nil). *)
Definition Connect (e : env) (live : gset nat) (s : t) (a : string)
  : t * list event * option error :=
  match newConn e a with
  | Err err => (s, [], Some err)
  | Ok c =>
      if closing s then (s, [Lock; Unlock], Some ErrClientClosed)
      else
        match peers s !! scid c with
        | Some _ => (s, [Lock; Unlock], Some (ErrConflict (scid c)))
        | None =>
            let s1 := set_peers s (<[scid c := c]> (peers s)) in
            (* Send initial packet *)
            let k := pool_get live in
            match env_send e with
            | Some err =>
                (set_peers s1 (delete (scid c) (peers s1)),
                 [Lock; Unlock; newPacket k; sendConn c;
                  Lock; Unlock; freePacket k],
                 Some (ErrSend (rc_addr c) err))
            | None =>
                (s1,
                 [Lock; Unlock; newPacket k; sendConn c;
                  go_handleConn c; freePacket k],
                 None)
            end
        end
  end.
End client.
End Client.

(** ** Reading a list of events *)

Fixpoint count (f : event -> bool) (evs : list event) : nat :=
  match evs with
  | [] => 0
  | ev :: rest => ((if f ev then 1 else 0) + count f rest)%nat
  end.

(** [freePacket] of buffer [k]. *)
Definition is_free (k : nat) (ev : event) : bool :=
  match ev with
  | freePacket k' => Nat.eqb k k'
  | _ => false
  end.

(** Buffer [k] put on some connection's inbound queue. *)
Definition is_queued (k : nat) (ev : event) : bool :=
  match ev with
  | recvCh_send _ p => Nat.eqb k (ptr p)
  | _ => false
  end.

Definition is_write (ev : event) : bool :=
  match ev with
  | WriteTo _ _ => true
  | _ => false
  end.

Definition is_spawn (ev : event) : bool :=
  match ev with
  | go_handleNewConn _ | handleConn _ | go_handleConn _ | recvCh_send _ _ =>
      true
  | _ => false
  end.

Definition is_admission (ev : event) : bool :=
  match ev with
  | go_handleNewConn _ | handleConn _ | go_handleConn _ | recvCh_send _ _
  | WriteTo _ _ | newPacket _ => true
  | _ => false
  end.

(** The token stage of [handleNewConn] lets the packet through with
    [odcid]: either no validator is set (and [odcid] stays nil), or the
    packet carries a token that the validator accepts. *)
Definition token_accepted (e : env) (s : Server.t) (p : packet)
    (odcid : list byte) : Prop :=
  match Server.addrValid s with
  | None => odcid = []
  | Some v =>
      transport.Token (header p) <> []
      /\ Validate v (env_now e) (addr p) (transport.Token (header p))
         = Ret odcid
      /\ odcid <> []
  end.

(** *** What the validator relies on

    The [cipher.AEAD] contract, for nonces of [NonceSize] bytes: sealing adds
    exactly [Overhead] bytes, and opening a sealed message under the same
    nonce and additional data gives the plaintext back. *)

Definition aead_exact_overhead (a : AEAD) : Prop :=
  forall n p ad, length n = aead_NonceSize a ->
    length (aead_Seal a n p ad) = (length p + aead_Overhead a)%nat.

Definition aead_correct (a : AEAD) : Prop :=
  forall n p ad, length n = aead_NonceSize a ->
    aead_Open a n (aead_Seal a n p ad) ad = Some p.

(** Authentication of the additional data, for one pair of values: nothing
    sealed under [ad] opens under [ad']. *)
Definition aead_rejects (a : AEAD) (ad ad' : list byte) : Prop :=
  forall n p, length n = aead_NonceSize a ->
    aead_Open a n (aead_Seal a n p ad) ad' = None.

(** [newAddressValidator] makes the nonce [aead.NonceSize()] bytes long; the
    validator writes a 4-byte timestamp over its head. *)
Definition validator_wf (s : addressValidator.t) : Prop :=
  length (addressValidator.nonce s) = aead_NonceSize (addressValidator.aead s)
  /\ (4 <= length (addressValidator.nonce s))%nat.

(** The four big-endian bytes of a 32-bit word. *)
Definition be32 (v : Z) : list byte :=
  [ bytes.of_Z (Z.shiftr v 24); bytes.of_Z (Z.shiftr v 16);
    bytes.of_Z (Z.shiftr v 8); bytes.of_Z v ].

(** The nonce of a token stamped [ts]: the stamp, then the secret tail. *)
Definition token_nonce (s : addressValidator.t) (ts : list byte) : list byte :=
  ts ++ drop 4 (addressValidator.nonce s).

(** ** A small AEAD to run the validator on

    Not a cipher: the plaintext is kept as it is and the 16-byte tag holds
    three 32-bit checksums (additional data, nonce, plaintext). It has the
    interface and the length behaviour of AES-GCM (12-byte nonce, 16-byte
    overhead), which is all the examples below need. *)

Module toy.
Definition sum32 (l : list byte) : Z :=
  fold_left (fun acc b => (acc * 31 + bytes.to_Z b) mod 2 ^ 32) l 7.

Definition tag (n p ad : list byte) : list byte :=
  be32 (sum32 ad) ++ be32 (sum32 n) ++ be32 (sum32 p) ++ bytes.make 4.

Definition Seal (n p ad : list byte) : list byte := p ++ tag n p ad.

Definition Open (n c ad : list byte) : option (list byte) :=
  if (length c <? 16)%nat then None
  else
    let p := take (length c - 16) c in
    if decide (drop (length c - 16) c = tag n p ad) then Some p else None.

Definition cipher : AEAD :=
  {| aead_NonceSize := 12; aead_Overhead := 16;
     aead_Seal := Seal; aead_Open := Open |}.

Definition secret : list byte :=
  [x11; x22; x33; x44; x55; x66; x77; x88; x99; xaa; xbb; xcc].

Definition validator : addressValidator.t :=
  {| addressValidator.aead := cipher; addressValidator.nonce := secret |}.

Definition client1 : Addr :=
  {| addr_Network := "udp"; addr_String := "192.0.2.1:4433" |}.
Definition client2 : Addr :=
  {| addr_Network := "udp"; addr_String := "192.0.2.2:4433" |}.

Definition odcid : list byte := [x01; x02; x03; x04; x05; x06; x07; x08].
End toy.

(** ** A small engine to run the endpoint on

    A header is one type byte, four version bytes (big endian), then the
    DCID, the SCID and the token, each behind a one-byte length. Accepting
    and connecting never fail. *)

Module toy_engine.
Definition field (b : list byte) : result (list byte * list byte) :=
  match b with
  | n :: rest =>
      let k := Z.to_nat (bytes.to_Z n) in
      if (length rest <? k)%nat then Err (ErrExternal "short buffer")
      else Ok (take k rest, drop k rest)
  | [] => Err (ErrExternal "short buffer")
  end.

Definition put_field (f : list byte) : list byte :=
  bytes.of_Z (len f) :: f.

Definition Decode (b : list byte) (dcil : Z) : result transport.Header :=
  match b with
  | ty :: v0 :: v1 :: v2 :: v3 :: rest =>
      match BigEndian.Uint32 [v0; v1; v2; v3], field rest with
      | Ret v, Ok (dcid, rest1) =>
          match field rest1 with
          | Ok (scid, rest2) =>
              match field rest2 with
              | Ok (tok, _) =>
                  if (dcil <? len dcid) || (dcil <? len scid)
                  then Err (ErrExternal "invalid cid length")
                  else Ok {| transport.Type_ := bytes.to_Z ty;
                             transport.Version := v;
                             transport.DCID := dcid;
                             transport.SCID := scid;
                             transport.Token := tok |}
              | Err e => Err e
              end
          | Err e => Err e
          end
      | _, _ => Err (ErrExternal "short buffer")
      end
  | _ => Err (ErrExternal "short buffer")
  end.

Definition encode (ty version : Z) (dcid scid tok : list byte) : list byte :=
  bytes.of_Z ty :: be32 version ++ put_field dcid ++ put_field scid
  ++ put_field tok.

#[global] Instance engine : transport.Engine :=
  {| transport.Decode := Decode;
     transport.NegotiateVersion := fun dcid scid =>
       Ok (encode 255 0 dcid scid (be32 transport.ProtocolVersion));
     transport.Retry := fun dcid scid odcid tok =>
       Ok (encode 3 transport.ProtocolVersion dcid scid tok);
     transport.Accept := fun scid odcid => Ok (transport.accepting scid odcid);
     transport.Connect := fun scid => Ok (transport.connecting scid) |}.

(** A datagram padded with zero bytes up to [size]. *)
Definition datagram (ty version : Z) (dcid scid tok : list byte) (size : nat)
  : list byte :=
  let h := encode ty version dcid scid tok in
  h ++ bytes.make (size - length h).

Definition no_header : transport.Header :=
  {| transport.Type_ := 0; transport.Version := 0; transport.DCID := [];
     transport.SCID := []; transport.Token := [] |}.

Definition received (k : nat) (b : list byte) (from : Addr) : packet :=
  {| ptr := k; data := b; addr := from; header := no_header |}.

Definition cid_d : list byte := replicate 20 xd0.
Definition cid_c : list byte := replicate 20 xc0.
Definition cid_short : list byte := replicate 8 xd8.

Definition world : env :=
  {| env_now := 1700000000;
     env_rand := Some (fun i => bytes.of_Z (160 + Z.of_nat i));
     env_write := None;
     env_send := None;
     env_resolve := fun a => Ok {| addr_Network := "udp"; addr_String := a |} |}.

Definition send_fails : env :=
  {| env_now := env_now world; env_rand := env_rand world;
     env_write := None; env_send := Some (ErrExternal "network is unreachable");
     env_resolve := env_resolve world |}.

Definition idle : localConn := {| closing := false; peers := ∅ |}.
Definition shutting_down : localConn := {| closing := true; peers := ∅ |}.

Definition server : Server.t :=
  {| Server.lc := idle; Server.addrValid := None |}.

(** A server and a client whose registry already holds [cid_d], and a
    client whose registry holds the CID the random source of [world]
    gives. *)
Definition held : remoteConn :=
  {| scid := cid_d; rc_addr := toy.client2;
     conn := transport.accepting cid_d [] |}.

Definition occupied : localConn :=
  {| closing := false; peers := {[ cid_d := held ]} |}.

Definition busy_server : Server.t :=
  {| Server.lc := occupied; Server.addrValid := None |}.

Definition random_cid : list byte :=
  (fun i => bytes.of_Z (160 + Z.of_nat i)) <$> seq 0 20.

Definition taken : remoteConn :=
  {| scid := random_cid; rc_addr := toy.client2;
     conn := transport.connecting random_cid |}.

Definition busy_client : localConn :=
  {| closing := false; peers := {[ random_cid := taken ]} |}.

(** Datagrams from [toy.client1], received into buffer 7. *)
Definition initial : packet :=
  received 7 (datagram 0 transport.ProtocolVersion cid_d cid_c [] 1200)
    toy.client1.

Definition small_initial : packet :=
  received 7 (datagram 0 transport.ProtocolVersion cid_d cid_c [] 0)
    toy.client1.

Definition other_version : packet :=
  received 7 (datagram 0 1 cid_d cid_c [] 1200) toy.client1.

Definition short_dcid_initial : packet :=
  received 7 (datagram 0 transport.ProtocolVersion cid_short cid_c [] 1200)
    toy.client1.

Definition in_use : gset nat := {[ 7%nat ]}.

(** The connection made for [initial], and the server after taking it in. *)
Definition first_conn : remoteConn :=
  {| scid := cid_d; rc_addr := toy.client1;
     conn := transport.accepting cid_d [] |}.

Definition enrolled : Server.t :=
  Server.set_lc server (set_peers idle {[ cid_d := first_conn ]}).

(** The packet as [recv] hands it on, with its header decoded. *)
Definition decoded (p : packet) : packet :=
  match Decode (data p) transport.MaxCIDLength with
  | Ok h => set_header p h
  | Err _ => p
  end.
End toy_engine.

(** ** server.go: building the address validator *)

(** [newAddressValidator]: a 16-byte random key, AES, GCM, then a random
    nonce of [aead.NonceSize()] bytes. [crypto/rand], [crypto/aes] and
    [crypto/cipher] are Go's; what they answer is given: [key_rand] and
    [nonce_rand] are the two [rand.Read] calls (the bytes, or the error),
    [NewCipher] and [NewGCM] the two constructors. The clock [time.Now] is
    handed to [Generate] and [Validate] at each call. *)
Definition newAddressValidator {Block : Type}
    (NewCipher : list byte -> result Block) (NewGCM : Block -> result AEAD)
    (key_rand nonce_rand : result (nat -> byte))
  : result addressValidator.t :=
  match key_rand with
  | Err err => Err err
  | Ok f =>
      let key := f <$> seq 0 16 in
      match NewCipher key with
      | Err err => Err err
      | Ok blk =>
          match NewGCM blk with
          | Err err => Err err
          | Ok a =>
              match nonce_rand with
              | Err err => Err err
              | Ok g =>
                  Ok {| addressValidator.aead := a;
                        addressValidator.nonce := g <$> seq 0 (aead_NonceSize a) |}
              end
          end
      end
  end.

(** [NewAddressValidator] panics when [newAddressValidator] fails. *)
Definition NewAddressValidator {Block : Type}
    (NewCipher : list byte -> result Block) (NewGCM : Block -> result AEAD)
    (key_rand nonce_rand : result (nat -> byte)) : go AddressValidator :=
  match newAddressValidator NewCipher NewGCM key_rand nonce_rand with
  | Err _ => Panic
  | Ok v => Ret (simpleValidator v)
  end.

(** ** The packet pool along a list of events *)

Definition is_new (k : nat) (ev : event) : bool :=
  match ev with
  | newPacket k' => Nat.eqb k k'
  | _ => false
  end.

(** The buffers handed out after the events, from those handed out
    before. *)
Definition pool_step (live : gset nat) (ev : event) : gset nat :=
  match ev with
  | newPacket k => {[ k ]} ∪ live
  | freePacket k => live ∖ {[ k ]}
  | _ => live
  end.

Definition pool_apply (evs : list event) (live : gset nat) : gset nat :=
  foldl pool_step live evs.

(** The same, checked: [None] as soon as a buffer that is handed out is
    handed out again, or a buffer that is not handed out is released
    (released twice, or never acquired). *)
Fixpoint pool_run (evs : list event) (live : gset nat) : option (gset nat) :=
  match evs with
  | [] => Some live
  | ev :: rest =>
      match ev with
      | newPacket k =>
          if decide (k ∈ live) then None else pool_run rest ({[ k ]} ∪ live)
      | freePacket k =>
          if decide (k ∈ live) then pool_run rest (live ∖ {[ k ]}) else None
      | _ => pool_run rest live
      end
  end.

(** Where buffer [k] is after the events of a routine that owned it, with
    the pool checked all along: back in the pool and nothing else changed,
    or still handed out and on a connection's queue. *)
Definition buffer_settled (k : nat) (evs : list event) (live : gset nat)
  : Prop :=
  pool_run evs live = Some (live ∖ {[ k ]})
  \/ (pool_run evs live = Some live /\ (0 < count (is_queued k) evs)%nat).

(** ** server.go, client.go: the serving loops *)

(** What one [s.socket.ReadFrom(p.buf[:])] gives: the bytes read
    ([p.buf[:n]]), the sender, and the error if any, with whether it is a
    [net.Error] whose [Timeout()] is true. *)
Record reading := {
  rd_data : list byte;
  rd_from : Addr;
  rd_err : option (bool * error);
}.

(** How far a serving loop got on the readings it was given: it returned
    an error, or it is back in [ReadFrom] with nothing more to read. *)
Inductive served :=
| Returned (err : error)
| Blocked.


(** The error that makes [Client.Serve] return: any read error. *)
Definition read_error (rd : reading) : option error :=
  match rd_err rd with
  | Some (_, err) => Some err
  | None => None
  end.

(** [errors.New("no listening connection")] *)
Definition errNoSocket : error := ErrExternal "no listening connection".

(** The header of a packet fresh from the pool; [Decode] overwrites it. *)
Definition zero_header : transport.Header :=
  {| transport.Type_ := 0; transport.Version := 0; transport.DCID := [];
     transport.SCID := []; transport.Token := [] |}.

Definition fresh_packet (k : nat) (rd : reading) : packet :=
  {| ptr := k; data := rd_data rd; addr := rd_from rd; header := zero_header |}.

Section serving.
Context `{E : transport.Engine}.

(** The body of the loop of [Server.Serve] up to the look at the error.
    The admission routine that [recv] may start is run to its end before
    the loop goes on ([Server.deliver]). *)
Definition Server_read (rd : reading) (e : env) (live : gset nat)
    (s : Server.t) : go (Server.t * list event) :=
  let k := pool_get live in
  if 0 <? len (rd_data rd) then
    (* Process returned data first before considering error *)
    r <~ Server.deliver e ({[ k ]} ∪ live) s (fresh_packet k rd) ;;
    Ret (r.1, [newPacket k; Log LevelTrace "%s received %d bytes\n%x"] ++ r.2)
  else Ret (s, [newPacket k; freePacket k]).

Fixpoint Server_loop (script : list (reading * env)) (live : gset nat)
    (s : Server.t) : go (Server.t * list event * served) :=
  match script with
  | [] => Ret (s, [], Blocked)
  | (rd, e) :: rest =>
      r <~ Server_read rd e live s ;;
      match rd_err rd with
      | None =>
          r' <~ Server_loop rest (pool_apply r.2 live) r.1 ;;
          Ret (r'.1.1, r.2 ++ r'.1.2, r'.2)
      | Some (true, _) =>
          (* Stop on socket error, but not on a timeout *)
          let evs := r.2 ++ [Log LevelTrace "read timeout: %v"] in
          r' <~ Server_loop rest (pool_apply evs live) r.1 ;;
          Ret (r'.1.1, evs ++ r'.1.2, r'.2)
      | Some (false, err) => Ret (r.1, r.2, Returned err)
      end
  end.

(** [Server.Serve]; [socket] is [None] for a nil socket, and otherwise
    what its reads will give, each with what the outside world answers
    while that datagram is handled. *)
Definition Server_Serve (socket : option (list (reading * env)))
    (live : gset nat) (s : Server.t) : go (Server.t * list event * served) :=
  match socket with
  | None => Ret (s, [], Returned errNoSocket)
  | Some script =>
      r <~ Server_loop script live s ;;
      Ret (r.1.1, Log LevelInfo "listening %s" :: r.1.2, r.2)
  end.

(** [Server.ListenAndServe]; [listen] is the answer of
    [net.ListenPacket]. *)
Definition Server_ListenAndServe (listen : result (list (reading * env)))
    (live : gset nat) (s : Server.t) : go (Server.t * list event * served) :=
  match listen with
  | Err err => Ret (s, [], Returned err)
  | Ok socket => Server_Serve (Some socket) live s
  end.

(** The body of the loop of [Client.Serve]. *)
Definition Client_read (rd : reading) (live : gset nat) (s : Client.t)
  : list event :=
  let k := pool_get live in
  if 0 <? len (rd_data rd) then
    [newPacket k; Log LevelTrace "%s receveid %d bytes\n%x"]
    ++ Client.recv s (fresh_packet k rd)
  else [newPacket k; freePacket k].

Fixpoint Client_loop (script : list reading) (live : gset nat) (s : Client.t)
  : list event * served :=
  match script with
  | [] => ([], Blocked)
  | rd :: rest =>
      let evs := Client_read rd live s in
      match rd_err rd with
      | Some (_, err) => (evs, Returned err)
      | None =>
          let r := Client_loop rest (pool_apply evs live) s in
          (evs ++ r.1, r.2)
      end
  end.

Definition Client_Serve (socket : option (list reading)) (live : gset nat)
    (s : Client.t) : list event * served :=
  match socket with
  | None => ([], Returned errNoSocket)
  | Some script =>
      let r := Client_loop script live s in
      (Log LevelInfo "listening %s" :: r.1, r.2)
  end.
End serving.

(** ** cmd/quince: the server name the client command puts in its TLS
    configuration *)

Module quince.
(** [strings.LastIndex(s, sep)] for a separator of one byte, as
    [serverName] calls it: the index of the last [c] in [s], or -1. *)
Fixpoint LastIndex (s : list byte) (c : byte) : Z :=
  match s with
  | [] => -1
  | b :: rest =>
      let r := LastIndex rest c in
      if r <? 0 then (if decide (b = c) then 0 else -1) else r + 1
  end.

Definition colon : byte := x3a.      (* ":" *)
Definition bracket : byte := x5d.    (* "]" *)

Definition serverName (s : list byte) : list byte :=
  let c := LastIndex s colon in
  if 0 <? c then
    let b := LastIndex s bracket in
    if b <? c then take (Z.to_nat c) s else s
  else s.
End quince.

(** What opens has the sealed length: the plaintext that [Open] returns is
    [Overhead] bytes shorter than what it was given. *)
Definition aead_open_length (a : AEAD) : Prop :=
  forall n c ad p, length n = aead_NonceSize a ->
    aead_Open a n c ad = Some p ->
    length c = (length p + aead_Overhead a)%nat.

(** ** More inputs to run the endpoint on *)

Module fixtures.
(** A server that validates addresses with [toy.validator]. *)
Definition retry_server : Server.t :=
  {| Server.lc := toy_engine.idle;
     Server.addrValid := Some (simpleValidator toy.validator) |}.

(** Three seconds after [toy_engine.world]. *)
Definition later : env :=
  {| env_now := env_now toy_engine.world + 3;
     env_rand := env_rand toy_engine.world;
     env_write := None; env_send := None;
     env_resolve := env_resolve toy_engine.world |}.

(** What [retry] answers to [toy_engine.initial], and the client's next
    Initial packet, which carries the token of that answer. *)
Definition first_retry : go (transport.Header * list event) :=
  Server.retry toy_engine.world toy_engine.in_use
    (simpleValidator toy.validator) toy.client1
    (header (toy_engine.decoded toy_engine.initial)).

Definition second_initial : packet :=
  match first_retry with
  | Ret r => set_header (toy_engine.decoded toy_engine.initial) r.1
  | Panic => toy_engine.decoded toy_engine.initial
  end.

(** A server and a client that are closing. *)
Definition closing_server : Server.t :=
  {| Server.lc := toy_engine.shutting_down; Server.addrValid := None |}.

(** A datagram for the connection made for [toy_engine.initial]: not an
    Initial packet, another version, 40 bytes, from another address. *)
Definition follow_up : packet :=
  toy_engine.received 9
    (toy_engine.datagram 2 1 toy_engine.cid_d toy_engine.cid_c [] 40)
    toy.client2.

(** A datagram for the connection a client made with the CID that the
    random source of [toy_engine.world] gives. *)
Definition reply : packet :=
  toy_engine.received 9
    (toy_engine.datagram 2 transport.ProtocolVersion toy_engine.random_cid
       toy_engine.cid_c [] 40)
    toy.client2.

(** Readings of a socket: an Initial datagram, a timeout without data, a
    datagram that comes with a fatal error, and one more datagram. *)
Definition read_initial : reading :=
  {| rd_data := data toy_engine.initial; rd_from := toy.client1;
     rd_err := None |}.

Definition read_timeout : reading :=
  {| rd_data := []; rd_from := toy.client1;
     rd_err := Some (true, ErrExternal "i/o timeout") |}.

Definition read_last : reading :=
  {| rd_data := data toy_engine.small_initial; rd_from := toy.client2;
     rd_err := Some (false, ErrExternal "use of closed network connection") |}.

Definition read_more : reading :=
  {| rd_data := data toy_engine.other_version; rd_from := toy.client2;
     rd_err := None |}.

(** What a socket gives before and from its fatal error on. *)
Definition before_error : list (reading * env) :=
  [(read_initial, toy_engine.world); (read_timeout, toy_engine.world)].

Definition after_error : list (reading * env) :=
  [(read_more, toy_engine.world)].

Definition script : list (reading * env) :=
  before_error ++ (read_last, toy_engine.world) :: after_error.
End fixtures.

(* ================================================================== *)
(** * Properties *)

(** ** Bytes and big-endian words *)

Lemma to_Z_of_Z (z : Z) : bytes.to_Z (bytes.of_Z z) = z mod 256.
Proof.
  unfold bytes.to_Z, bytes.of_Z.
  assert (Hr : 0 <= z mod 256 < 256) by (apply Z.mod_pos_bound; lia).
  destruct (Byte.of_N (Z.to_N (z mod 256))) as [b|] eqn:E; simpl.
  - apply Byte.to_of_N in E. rewrite E. lia.
  - apply Byte.of_N_None_iff in E. lia.
Qed.

Lemma to_Z_range (b : byte) : 0 <= bytes.to_Z b < 256.
Proof. unfold bytes.to_Z. pose proof (Byte.to_N_bounded b). lia. Qed.

Lemma land_shiftl_disjoint (a b k : Z) :
  0 <= k -> 0 <= a < 2 ^ k -> Z.land a (Z.shiftl b k) = 0.
Proof.
  intros Hk Ha. apply Z.bits_inj'. intros n Hn.
  rewrite Z.land_spec, Z.bits_0.
  destruct (Z.lt_ge_cases n k) as [Hlt|Hge].
  - rewrite (Z.shiftl_spec_low b k n Hlt). apply andb_false_r.
  - rewrite <- (Z.mod_small a (2 ^ k)) by lia.
    rewrite Z.mod_pow2_bits_high by lia. reflexivity.
Qed.

Lemma lor_shiftl_add (a b k : Z) :
  0 <= k -> 0 <= a < 2 ^ k -> Z.lor a (Z.shiftl b k) = a + b * 2 ^ k.
Proof.
  intros Hk Ha. pose proof (land_shiftl_disjoint a b k Hk Ha) as Hd.
  rewrite <- Z.lxor_lor by exact Hd.
  rewrite <- Z.add_nocarry_lxor by exact Hd.
  rewrite Z.shiftl_mul_pow2 by lia. reflexivity.
Qed.

Lemma Uint32_value (b0 b1 b2 b3 : byte) (rest : list byte) :
  BigEndian.Uint32 (b0 :: b1 :: b2 :: b3 :: rest)
  = Ret (bytes.to_Z b3 + bytes.to_Z b2 * 2 ^ 8 + bytes.to_Z b1 * 2 ^ 16
         + bytes.to_Z b0 * 2 ^ 24).
Proof.
  pose proof (to_Z_range b0). pose proof (to_Z_range b1).
  pose proof (to_Z_range b2). pose proof (to_Z_range b3).
  unfold BigEndian.Uint32. f_equal.
  rewrite (lor_shiftl_add (bytes.to_Z b3)) by lia.
  rewrite (lor_shiftl_add (_ + _) _ 16) by lia.
  rewrite (lor_shiftl_add (_ + _) _ 24) by lia.
  reflexivity.
Qed.

Lemma Uint32_range (b : list byte) (v : Z) :
  BigEndian.Uint32 b = Ret v -> 0 <= v < 2 ^ 32.
Proof.
  destruct b as [|b0 [|b1 [|b2 [|b3 rest]]]]; try discriminate.
  rewrite Uint32_value. intros [= <-].
  pose proof (to_Z_range b0). pose proof (to_Z_range b1).
  pose proof (to_Z_range b2). pose proof (to_Z_range b3). lia.
Qed.

Lemma Uint32_PutUint32 (b : list byte) (v : Z) :
  (4 <= length b)%nat -> 0 <= v < 2 ^ 32 ->
  exists b', BigEndian.PutUint32 b v = Ret b'
             /\ length b' = length b
             /\ drop 4 b' = drop 4 b
             /\ BigEndian.Uint32 b' = Ret v.
Proof.
  intros Hlen Hv. unfold BigEndian.PutUint32.
  destruct (Nat.ltb_spec (length b) 4) as [?|_]; [lia|].
  eexists. split; [reflexivity|]. split; [|split].
  - simpl. rewrite length_drop. lia.
  - reflexivity.
  - cbn [app]. rewrite Uint32_value, !to_Z_of_Z, !Z.shiftr_div_pow2 by lia.
    f_equal. Z.div_mod_to_equations. lia.
Qed.

(** ** The address validator *)

Lemma be32_Uint32 (v : Z) (rest : list byte) :
  0 <= v < 2 ^ 32 -> BigEndian.Uint32 (be32 v ++ rest) = Ret v.
Proof.
  intros Hv. unfold be32. cbn [app].
  rewrite Uint32_value, !to_Z_of_Z, !Z.shiftr_div_pow2 by lia.
  f_equal. Z.div_mod_to_equations. lia.
Qed.

Lemma PutUint32_make (n : nat) (v : Z) :
  (4 <= n)%nat ->
  BigEndian.PutUint32 (bytes.make n) v = Ret (be32 v ++ bytes.make (n - 4)).
Proof.
  intros Hn. unfold BigEndian.PutUint32, bytes.make.
  rewrite length_replicate.
  destruct (Nat.ltb_spec n 4) as [?|_]; [lia|].
  rewrite drop_replicate. reflexivity.
Qed.

Lemma uint32_range (x : Z) : 0 <= uint32 x < 2 ^ 32.
Proof. unfold uint32. apply Z.mod_pos_bound. lia. Qed.

Lemma length_be32 (v : Z) : length (be32 v) = 4%nat.
Proof. reflexivity. Qed.

(** Both directions build the same nonce from a 4-byte stamp. *)
Lemma fill_tail_stamp (s : addressValidator.t) (ts : list byte) :
  length ts = 4%nat -> (4 <= length (addressValidator.nonce s))%nat ->
  addressValidator.fill_tail s
    (ts ++ bytes.make (length (addressValidator.nonce s) - 4))
  = Ret (token_nonce s ts).
Proof.
  intros Hts Hn. unfold addressValidator.fill_tail, token_nonce, bytes.copy, bytes.make.
  rewrite length_app, length_replicate, Hts.
  destruct (Nat.ltb_spec (4 + (length (addressValidator.nonce s) - 4)) 4) as [?|_]; [lia|].
  f_equal.
  rewrite take_app_length' by (symmetry; exact Hts).
  rewrite drop_app_length' by (symmetry; exact Hts).
  rewrite length_replicate, length_drop.
  rewrite take_ge by (rewrite length_drop; lia).
  rewrite drop_replicate, Nat.sub_diag. cbn [replicate].
  rewrite app_nil_r. reflexivity.
Qed.

Lemma length_token_nonce (s : addressValidator.t) (ts : list byte) :
  length ts = 4%nat -> (4 <= length (addressValidator.nonce s))%nat ->
  length (token_nonce s ts) = length (addressValidator.nonce s).
Proof.
  intros Hts Hn. unfold token_nonce. rewrite length_app, length_drop. lia.
Qed.

(** What [Generate] returns, whatever the AEAD does: the stamp, then the
    region behind it after [Seal] appended to the empty slice at offset 4. *)
Lemma Generate_unfold (s : addressValidator.t) (now : Z) (addr : Addr)
    (odcid : list byte) :
  (4 <= length (addressValidator.nonce s))%nat ->
  addressValidator.Generate s now addr odcid
  = Ret (be32 (uint32 now)
         ++ bytes.append_in_place
              (bytes.make (length odcid + aead_Overhead (addressValidator.aead s)))
              (aead_Seal (addressValidator.aead s)
                 (token_nonce s (be32 (uint32 now))) odcid
                 (bytes.of_string (addr_String addr)))).
Proof.
  intros Hn. unfold addressValidator.Generate.
  rewrite PutUint32_make by exact Hn. cbn [go_bind].
  rewrite fill_tail_stamp by (exact Hn || reflexivity). cbn [go_bind].
  rewrite PutUint32_make by lia. cbn [go_bind].
  replace (4 + length odcid + aead_Overhead (addressValidator.aead s) - 4)%nat
    with (length odcid + aead_Overhead (addressValidator.aead s))%nat by lia.
  rewrite take_app_length' by reflexivity.
  rewrite drop_app_length' by reflexivity.
  reflexivity.
Qed.

Lemma Generate_sealed (s : addressValidator.t) (now : Z) (addr : Addr)
    (odcid : list byte) :
  aead_exact_overhead (addressValidator.aead s) -> validator_wf s ->
  addressValidator.Generate s now addr odcid
  = Ret (be32 (uint32 now)
         ++ aead_Seal (addressValidator.aead s)
              (token_nonce s (be32 (uint32 now))) odcid
              (bytes.of_string (addr_String addr))).
Proof.
  intros Hov [Hsz Hn]. rewrite Generate_unfold by exact Hn.
  do 2 f_equal. unfold bytes.append_in_place, bytes.make.
  rewrite Hov by (rewrite length_token_nonce; auto).
  rewrite length_replicate, Nat.leb_refl.
  rewrite drop_replicate, Nat.sub_diag. apply app_nil_r.
Qed.

(** What [Validate] does with a token of at least four bytes: the window
    check on the stamp, then the AEAD's answer. *)
Lemma Validate_unfold (s : addressValidator.t) (now : Z) (addr : Addr)
    (ts body : list byte) (issued : Z) :
  length ts = 4%nat -> (4 <= length (addressValidator.nonce s))%nat ->
  BigEndian.Uint32 (ts ++ body) = Ret issued ->
  addressValidator.Validate s now addr (ts ++ body)
  = if (issued <? int64 (now - addressValidator.validity)) || (issued >? now)
    then Ret []
    else Ret (default [] (aead_Open (addressValidator.aead s)
                            (token_nonce s ts) body
                            (bytes.of_string (addr_String addr)))).
Proof.
  intros Hts Hn Hu. unfold addressValidator.Validate.
  rewrite length_app, Hts.
  destruct (Nat.ltb_spec (4 + length body) 4) as [?|_]; [lia|].
  rewrite Hu. cbn [go_bind].
  destruct (_ || _); [reflexivity|].
  rewrite take_app_length' by (symmetry; exact Hts).
  rewrite drop_app_length' by (symmetry; exact Hts).
  replace (bytes.copy (bytes.make (length (addressValidator.nonce s))) ts)
    with (ts ++ bytes.make (length (addressValidator.nonce s) - 4)).
  2:{ unfold bytes.copy, bytes.make. rewrite length_replicate, Hts.
      rewrite take_ge by lia. rewrite drop_replicate. reflexivity. }
  rewrite fill_tail_stamp by assumption. cbn [go_bind].
  destruct (aead_Open _ _ _ _); reflexivity.
Qed.

Lemma split_token (token : list byte) :
  (4 <= length token)%nat ->
  token = take 4 token ++ drop 4 token /\ length (take 4 token) = 4%nat.
Proof.
  intros H. split; [symmetry; apply take_drop|].
  rewrite length_take. lia.
Qed.

Lemma int64_small (x : Z) : is_int64 x -> int64 x = x.
Proof.
  unfold is_int64, int64. intros H.
  rewrite Z.mod_small by lia. lia.
Qed.

(** After the 32-bit stamp has wrapped, a token is rejected at the very
    instant it was made, whatever the AEAD. *)
Lemma Validate_Generate_wrapped (s : addressValidator.t) (now : Z)
    (addr : Addr) (odcid : list byte) :
  (4 <= length (addressValidator.nonce s))%nat ->
  is_int64 now -> 2 ^ 32 <= now ->
  exists token,
    addressValidator.Generate s now addr odcid = Ret token
    /\ addressValidator.Validate s now addr token = Ret [].
Proof.
  intros Hn Hi Hnow. rewrite Generate_unfold by exact Hn.
  eexists. split; [reflexivity|].
  pose proof (uint32_range now) as Hr.
  rewrite (Validate_unfold s now addr _ _ (uint32 now))
    by (reflexivity || exact Hn || (apply be32_Uint32; exact Hr)).
  unfold addressValidator.validity.
  rewrite int64_small by (unfold is_int64 in *; lia).
  assert (Hlow : uint32 now <= now - 2 ^ 32)
    by (unfold uint32; Z.div_mod_to_equations; lia).
  destruct (Z.ltb_spec (uint32 now) (now - 10)); [reflexivity|lia].
Qed.

(** ** The toy AEAD keeps the [cipher.AEAD] contract *)

Lemma length_tag (n p ad : list byte) : length (toy.tag n p ad) = 16%nat.
Proof. reflexivity. Qed.

Lemma toy_exact_overhead : aead_exact_overhead toy.cipher.
Proof.
  intros n p ad _. cbn. unfold toy.Seal.
  rewrite length_app, length_tag. reflexivity.
Qed.

Lemma toy_Open_Seal (n p ad ad' : list byte) :
  toy.Open n (toy.Seal n p ad) ad'
  = if decide (toy.tag n p ad = toy.tag n p ad') then Some p else None.
Proof.
  unfold toy.Open, toy.Seal.
  rewrite length_app, length_tag.
  destruct (Nat.ltb_spec (length p + 16) 16) as [?|_]; [lia|].
  replace (length p + 16 - 16)%nat with (length p) by lia. cbv zeta.
  rewrite take_app_length, drop_app_length. reflexivity.
Qed.

Lemma toy_correct : aead_correct toy.cipher.
Proof.
  intros n p ad _. cbn. rewrite toy_Open_Seal.
  destruct (decide _); [reflexivity|congruence].
Qed.

Lemma toy_rejects_other_client :
  aead_rejects toy.cipher (bytes.of_string (addr_String toy.client1))
                       (bytes.of_string (addr_String toy.client2)).
Proof.
  intros n p _. cbn [aead_Open aead_Seal toy.cipher]. rewrite toy_Open_Seal.
  destruct (decide _) as [E|_]; [exfalso|reflexivity].
  unfold toy.tag in E.
  apply (f_equal (take 4)) in E.
  rewrite !take_app_length' in E by reflexivity.
  vm_compute in E. discriminate E.
Qed.

Lemma toy_validator_wf : validator_wf toy.validator.
Proof. split; cbn; [reflexivity|lia]. Qed.

(** ** The dispatch and admission routines *)

Lemma count_app (f : event -> bool) (xs ys : list event) :
  count f (xs ++ ys) = (count f xs + count f ys)%nat.
Proof. induction xs as [|x xs IH]; cbn; [reflexivity|]. rewrite IH. lia. Qed.

Lemma len_nil_iff {A} (l : list A) : (len l =? 0) = true <-> l = [].
Proof.
  destruct l; cbn [length]; split; intros H; try reflexivity;
    try discriminate; lia.
Qed.

Lemma len_not_nil {A} (l : list A) : l <> [] -> (len l =? 0) = false.
Proof.
  intros H. destruct (len l =? 0) eqn:E; [|reflexivity].
  apply len_nil_iff in E. contradiction.
Qed.

Section endpoint_facts.
Context `{E : transport.Engine}.

(** A packet that passes the token stage goes on to [enroll]. *)
Lemma handleNewConn_accepted (e : env) (live : gset nat) (s : Server.t)
    (p : packet) (odcid : list byte) :
  token_accepted e s p odcid ->
  Server.handleNewConn e live s p = Ret (Server.enroll e s p odcid).
Proof.
  unfold token_accepted, Server.handleNewConn, Server.verifyToken.
  destruct (Server.addrValid s) as [v|].
  - intros (Htok & Hval & Hne).
    rewrite (len_not_nil _ Htok), Hval. cbn [go_bind].
    rewrite (len_not_nil _ Hne). reflexivity.
  - intros ->. reflexivity.
Qed.

(** [enroll] leaves every entry of the registry as it was. *)
Lemma enroll_keeps_entries (e : env) (s : Server.t) (p : packet)
    (odcid : list byte) :
  peers (Server.lc s) ⊆ peers (Server.lc (Server.enroll e s p odcid).1).
Proof.
  unfold Server.enroll.
  destruct (Server.newConn _ _ _ _) as [c|]; [|reflexivity].
  destruct (closing _); [reflexivity|].
  destruct (peers (Server.lc s) !! scid c) eqn:Hk; [reflexivity|].
  cbn. apply insert_subseteq. exact Hk.
Qed.

(** [enroll] changes the registry only by adding the new connection under
    a key that was free. *)
Lemma enroll_inserts_fresh (e : env) (s : Server.t) (p : packet)
    (odcid : list byte) :
  (Server.enroll e s p odcid).1 = s
  \/ exists c,
       Server.newConn e (addr p) (transport.DCID (header p)) odcid = Ok c
       /\ peers (Server.lc s) !! scid c = None
       /\ (Server.enroll e s p odcid).1
          = Server.set_lc s (set_peers (Server.lc s)
                               (<[scid c := c]> (peers (Server.lc s))))
       /\ handleConn c ∈ (Server.enroll e s p odcid).2.
Proof.
  unfold Server.enroll.
  destruct (Server.newConn _ _ _ _) as [c|]; [|left; reflexivity].
  destruct (closing _); [left; reflexivity|].
  destruct (peers (Server.lc s) !! scid c) eqn:Hk; [left; reflexivity|].
  right. exists c. cbn. repeat split; try assumption.
  do 4 apply list_elem_of_further. apply list_elem_of_here.
Qed.

(** The local CID chosen by [Server.newConn]. *)
Lemma Server_newConn_scid (e : env) (a : Addr) (id odcid : list byte)
    (c : remoteConn) :
  Server.newConn e a id odcid = Ok c ->
  len (scid c) = transport.MaxCIDLength
  /\ (len id = transport.MaxCIDLength -> scid c = id)
  /\ (len id <> transport.MaxCIDLength ->
      exists f, env_rand e = Some f
                /\ scid c = f <$> seq 0 (Z.to_nat transport.MaxCIDLength)).
Proof.
  assert (Hz : length zero_scid = 20%nat) by reflexivity.
  unfold Server.newConn, rand_fill.
  generalize dependent zero_scid. intros z Hz.
  rewrite Hz. change (Z.of_nat 20) with transport.MaxCIDLength.
  change (Z.to_nat transport.MaxCIDLength) with 20%nat.
  destruct (Z.eqb_spec (len id) transport.MaxCIDLength) as [Hl|Hl].
  - assert (Hcopy : bytes.copy z id = id).
    { unfold bytes.copy. rewrite Hz.
      rewrite take_ge by (unfold transport.MaxCIDLength in *; lia).
      rewrite drop_ge, app_nil_r; [reflexivity|].
      unfold transport.MaxCIDLength in *. lia. }
    rewrite Hcopy.
    destruct (transport.Accept _ _) as [en|]; [|discriminate].
    intros [= <-]. cbn [scid].
    repeat split; [exact Hl|contradiction].
  - destruct (env_rand e) as [f|]; [|discriminate].
    destruct (transport.Accept _ _) as [en|]; [|discriminate].
    intros [= <-]. cbn [scid]. repeat split.
    + intros Hl'. contradiction.
    + intros _. exists f. split; reflexivity.
Qed.
End endpoint_facts.

(** ** Who ends up with the buffer *)

Ltac members H :=
  repeat (rewrite ?elem_of_app, ?elem_of_cons, ?elem_of_nil in H);
  intuition (try discriminate).

Section buffers.
Context `{E : transport.Engine}.

Lemma pool_get_other (live : gset nat) (k : nat) :
  k ∈ live -> Nat.eqb k (pool_get live) = false.
Proof.
  intros Hk. apply Nat.eqb_neq. intros ->.
  exact (is_fresh live Hk).
Qed.

Lemma negotiate_leaves (e : env) (live : gset nat) (a : Addr)
    (h : transport.Header) (k : nat) :
  k ∈ live ->
  count (is_free k) (Server.negotiate e live a h) = 0%nat
  /\ count (is_queued k) (Server.negotiate e live a h) = 0%nat.
Proof.
  intros Hk. pose proof (pool_get_other live k Hk) as Hne.
  unfold Server.negotiate.
  destruct (transport.NegotiateVersion _ _); [destruct (env_write e)|];
    cbn; rewrite Hne; auto.
Qed.

Lemma retry_leaves (e : env) (live : gset nat) (v : AddressValidator)
    (a : Addr) (h : transport.Header) (k : nat)
    (r : transport.Header * list event) :
  k ∈ live ->
  Server.retry e live v a h = Ret r ->
  count (is_free k) r.2 = 0%nat /\ count (is_queued k) r.2 = 0%nat.
Proof.
  intros Hk. pose proof (pool_get_other live k Hk) as Hne.
  unfold Server.retry.
  destruct (rand_fill e zero_scid) as [newCID|].
  - destruct (Generate v _ _ _) as [tok|]; [|discriminate].
    cbn [go_bind]. intros [= <-]. cbn [snd].
    destruct (transport.Retry _ _ _ _); [destruct (env_write e)|];
      cbn; rewrite Hne; auto.
  - intros [= <-]. cbn. rewrite Hne. auto.
Qed.

Lemma retry_starts_nothing (e : env) (live : gset nat) (v : AddressValidator)
    (a : Addr) (h : transport.Header) (r : transport.Header * list event)
    (c : remoteConn) :
  Server.retry e live v a h = Ret r -> handleConn c ∉ r.2.
Proof.
  unfold Server.retry.
  destruct (rand_fill e zero_scid) as [newCID|].
  - destruct (Generate v _ _ _) as [tok|]; [|discriminate].
    cbn [go_bind]. intros [= <-]. cbn [snd].
    destruct (transport.Retry _ _ _ _); [destruct (env_write e)|];
      intros Hc; members Hc.
  - intros [= <-] Hc. cbn [snd] in Hc. members Hc.
Qed.

Lemma enroll_hands_over (e : env) (s : Server.t) (p : packet)
    (odcid : list byte) :
  (count (is_free (ptr p)) (Server.enroll e s p odcid).2
   + count (is_queued (ptr p)) (Server.enroll e s p odcid).2 = 1)%nat.
Proof.
  unfold Server.enroll.
  destruct (Server.newConn _ _ _ _) as [c|];
    [destruct (closing _); [|destruct (peers _ !! _)]|];
    cbn; rewrite Nat.eqb_refl; reflexivity.
Qed.

(** The connection whose routine [handleNewConn] runs is the one
    [newConn] built from the packet's DCID, and it is in the registry
    under its local CID. *)
Lemma handleNewConn_started (e : env) (live : gset nat) (s s' : Server.t)
    (p : packet) (evs : list event) (c : remoteConn) :
  Server.handleNewConn e live s p = Ret (s', evs) ->
  handleConn c ∈ evs ->
  exists odcid,
    Server.newConn e (addr p) (transport.DCID (header p)) odcid = Ok c
    /\ peers (Server.lc s) !! scid c = None
    /\ peers (Server.lc s') !! scid c = Some c.
Proof.
  assert (Henroll : forall odcid,
    Server.enroll e s p odcid = (s', evs) -> handleConn c ∈ evs ->
    exists odcid,
      Server.newConn e (addr p) (transport.DCID (header p)) odcid = Ok c
      /\ peers (Server.lc s) !! scid c = None
      /\ peers (Server.lc s') !! scid c = Some c).
  { intros odcid. unfold Server.enroll.
    destruct (Server.newConn _ _ _ _) as [c0|] eqn:Hnew.
    - destruct (closing _); [intros [= <- <-] Hc; members Hc|].
      destruct (peers _ !! _) eqn:Hk; intros [= <- <-] Hc; members Hc.
      match goal with H : handleConn c = handleConn c0 |- _ =>
        injection H as -> end.
      exists odcid. repeat split; try assumption.
      cbn. apply lookup_insert_eq.
    - intros [= <- <-] Hc; members Hc. }
  unfold Server.handleNewConn.
  destruct (Server.addrValid s) as [v|]; [|intros [= H]; eauto].
  destruct (len (transport.Token (header p)) =? 0).
  - destruct (Server.retry _ _ _ _ _) as [r|] eqn:Hr; [|discriminate].
    cbn [go_bind]. intros [= <- <-] Hc.
    apply elem_of_app in Hc as [Hc|Hc]; [|members Hc].
    exact (False_ind _ (retry_starts_nothing e live v _ _ r c Hr Hc)).
  - destruct (Server.verifyToken _ _ _ _) as [odcid|]; [|discriminate].
    cbn [go_bind]. destruct (len odcid =? 0).
    + intros [= <- <-] Hc. members Hc.
    + intros [= H]. eauto.
Qed.

(** Every way through [handleNewConn] either releases the packet's buffer
    once or puts it on the new connection's queue once. *)
Lemma handleNewConn_release_or_queue (e : env) (live : gset nat)
    (s s' : Server.t) (p : packet) (evs : list event) :
  ptr p ∈ live ->
  Server.handleNewConn e live s p = Ret (s', evs) ->
  (count (is_free (ptr p)) evs + count (is_queued (ptr p)) evs = 1)%nat.
Proof.
  intros Hlive. unfold Server.handleNewConn.
  destruct (Server.addrValid s) as [v|].
  - destruct (len (transport.Token (header p)) =? 0).
    + destruct (Server.retry _ _ _ _ _) as [r|] eqn:Hr; [|discriminate].
      cbn [go_bind]. intros [= _ <-].
      destruct (retry_leaves e live v _ _ (ptr p) r Hlive Hr) as [Hf Hq].
      rewrite !count_app, Hf, Hq. cbn. rewrite Nat.eqb_refl. reflexivity.
    + destruct (Server.verifyToken _ _ _ _) as [odcid|]; [|discriminate].
      cbn [go_bind]. destruct (len odcid =? 0).
      * intros [= _ <-]. cbn. rewrite Nat.eqb_refl. reflexivity.
      * intros [= H]. pose proof (enroll_hands_over e s p odcid) as Ha.
        rewrite H in Ha. exact Ha.
  - intros [= H]. pose proof (enroll_hands_over e s p []) as Ha.
    rewrite H in Ha. exact Ha.
Qed.

(** The same for a datagram taken through the server's [recv] and the
    admission it starts. *)
Lemma Server_deliver_release_or_queue (e : env) (live : gset nat)
    (s s' : Server.t) (p : packet) (evs : list event) :
  ptr p ∈ live ->
  Server.deliver e live s p = Ret (s', evs) ->
  (count (is_free (ptr p)) evs + count (is_queued (ptr p)) evs = 1)%nat.
Proof.
  intros Hlive. unfold Server.deliver, Server.recv.
  destruct (transport.Decode _ _) as [h|];
    [|cbn; intros [= _ <-]; cbn; rewrite Nat.eqb_refl; reflexivity].
  cbn [set_header header data ptr addr].
  destruct (closing _);
    [cbn; intros [= _ <-]; cbn; rewrite Nat.eqb_refl; reflexivity|].
  destruct (peers _ !! _) as [c|];
    [cbn; intros [= _ <-]; cbn; rewrite Nat.eqb_refl; reflexivity|].
  destruct (negb _ || _);
    [cbn; intros [= _ <-]; cbn; rewrite Nat.eqb_refl; reflexivity|].
  destruct (negb _).
  - destruct (negotiate_leaves e live (addr p) h (ptr p) Hlive) as [Hf Hq].
    set (neg := Server.negotiate e live (addr p) h) in *. clearbody neg.
    rewrite !app_assoc, last_snoc.
    intros [= _ <-]. cbn [count is_free is_queued].
    rewrite !count_app, Hf, Hq. cbn. rewrite Nat.eqb_refl. reflexivity.
  - rewrite !app_assoc, last_snoc.
    destruct (Server.handleNewConn _ _ _ _) as [[s1 evs1]|] eqn:Hrun;
      [|discriminate].
    cbn [go_bind fst snd]. intros [= _ <-].
    pose proof (handleNewConn_release_or_queue e live s s1
                  (set_header p h) evs1 Hlive Hrun) as Hone.
    cbn [ptr set_header] in Hone. cbn. exact Hone.
Qed.

(** When the engine cannot build the version-negotiation datagram, the
    server writes nothing and still releases the packet. *)
Lemma recv_negotiation_error (e : env) (live : gset nat) (s : Server.t)
    (p : packet) (h : transport.Header) (err : error) :
  transport.Decode (data p) transport.MaxCIDLength = Ok h ->
  closing (Server.lc s) = false ->
  peers (Server.lc s) !! transport.DCID h = None ->
  transport.Type_ h = 0 ->
  transport.MinInitialPacketSize <= len (data p) ->
  transport.Version h <> transport.ProtocolVersion ->
  transport.NegotiateVersion (transport.SCID h) (transport.DCID h) = Err err ->
  Server.recv e live s p
  = [Log LevelDebug "%s received packet %s"; RLock; RUnlock;
     newPacket (pool_get live); Log LevelError "%s negotiate: %s %v";
     freePacket (pool_get live); freePacket (ptr p)].
Proof.
  intros Hdec Hopen Hnone Hty Hlen Hver Hreply.
  unfold Server.recv, Server.negotiate. rewrite Hdec.
  cbn [set_header header data ptr addr].
  rewrite Hopen, Hnone, Hty, Hreply.
  apply Z.ltb_ge in Hlen. rewrite Hlen.
  apply Z.eqb_neq in Hver. rewrite Hver. reflexivity.
Qed.

(** The client's [recv], while the client is not closing. *)
Lemma Client_recv_release_or_queue (s : Client.t) (p : packet) :
  closing s = false ->
  (count (is_free (ptr p)) (Client.recv s p)
   + count (is_queued (ptr p)) (Client.recv s p) = 1)%nat.
Proof.
  intros Hopen. unfold Client.recv. rewrite Hopen.
  destruct (transport.Decode _ _) as [h|]; [destruct (peers _ !! _)|];
    cbn; rewrite Nat.eqb_refl; reflexivity.
Qed.

(** The client's [recv], once the client is closing: the packet is
    neither released nor queued. *)
Lemma Client_recv_closing (s : Client.t) (p : packet) (h : transport.Header) :
  transport.Decode (data p) transport.MaxCIDLength = Ok h ->
  closing s = true ->
  Client.recv s p = [Log LevelDebug "%s received packet %s"; RLock; RUnlock].
Proof.
  intros Hdec Hcl. unfold Client.recv. rewrite Hdec, Hcl. reflexivity.
Qed.
End buffers.

(** ** Claims about the address validator *)

(** C1, as written, at the first second after the 32-bit stamp has wrapped
    (7 February 2106): [Generate] returns a token and [Validate], asked at
    that same second with the same address, answers invalid instead of the
    original DCID. *)
Lemma C1_roundtrip_fails_after_wrap :
  exists token,
    addressValidator.Generate toy.validator (2 ^ 32) toy.client1 toy.odcid
      = Ret token
    /\ addressValidator.Validate toy.validator (2 ^ 32) toy.client1 token
      = Ret []
    /\ addressValidator.Validate toy.validator (2 ^ 32) toy.client1 token
      <> Ret toy.odcid.
Proof.
  eexists. split; [vm_compute; reflexivity|].
  split; [vm_compute; reflexivity|]. vm_compute. discriminate.
Qed.

(** C1 (amended): while the clock fits the 4-byte stamp
    (0 <= now < 2^32), for every address and every non-empty original DCID,
    the token made by [Generate] at time [now] is turned back into exactly
    that DCID, and not into the invalid answer, by [Validate] with the same
    address at any time from [now] to [now + 10] (so at the same and at the
    following second). *)
Theorem C1_roundtrip_within_stamp_range (s : addressValidator.t) (now now' : Z)
    (a : Addr) (odcid : list byte) :
  aead_exact_overhead (addressValidator.aead s) ->
  aead_correct (addressValidator.aead s) ->
  validator_wf s ->
  odcid <> [] ->
  0 <= now < 2 ^ 32 ->
  now <= now' <= now + addressValidator.validity ->
  exists token,
    addressValidator.Generate s now a odcid = Ret token
    /\ addressValidator.Validate s now' a token = Ret odcid
    /\ addressValidator.Validate s now' a token <> Ret [].
Proof.
  intros Hov Hok Hwf Hne Hnow Hwin.
  rewrite Generate_sealed by assumption.
  eexists. split; [reflexivity|].
  destruct Hwf as [Hsz Hn].
  assert (Hu : uint32 now = now) by (unfold uint32; apply Z.mod_small; lia).
  rewrite Hu.
  rewrite (Validate_unfold s now' a _ _ now)
    by (reflexivity || exact Hn || (apply be32_Uint32; lia)).
  unfold addressValidator.validity in *.
  rewrite int64_small by (unfold is_int64; lia).
  destruct (Z.ltb_spec now (now' - 10)) as [?|_]; [lia|].
  destruct (Z.gtb_spec now now') as [?|_]; [lia|]. cbn [orb].
  rewrite Hok by (rewrite length_token_nonce; auto).
  cbn [default]. split; [reflexivity|]. intros [= ->]. contradiction.
Qed.

Lemma C1_roundtrip_witness :
  exists token,
    addressValidator.Generate toy.validator 1700000000 toy.client1 toy.odcid
      = Ret token
    /\ addressValidator.Validate toy.validator 1700000001 toy.client1 token
      = Ret toy.odcid
    /\ addressValidator.Validate toy.validator 1700000001 toy.client1 token
      <> Ret [].
Proof.
  apply (C1_roundtrip_within_stamp_range toy.validator 1700000000 1700000001
           toy.client1 toy.odcid).
  - exact toy_exact_overhead.
  - exact toy_correct.
  - exact toy_validator_wf.
  - discriminate.
  - lia.
  - unfold addressValidator.validity. lia.
Defined.

(** C2: [Validate] answers invalid for a token shorter than the 4-byte
    stamp, for a token stamped more than 10 seconds before the current
    time, and for a token stamped after the current time; a token stamped
    one second before the current time passes the window check, and the
    answer is then the AEAD's. *)
Theorem C2_validity_window (s : addressValidator.t) (now : Z) (a : Addr)
    (token : list byte) :
  is_int64 now ->
  ((length token < 4)%nat ->
     addressValidator.Validate s now a token = Ret [])
  /\ (forall issued, BigEndian.Uint32 token = Ret issued ->
        issued < now - 10 ->
        addressValidator.Validate s now a token = Ret [])
  /\ (forall issued, BigEndian.Uint32 token = Ret issued ->
        now < issued ->
        addressValidator.Validate s now a token = Ret [])
  /\ (forall issued, BigEndian.Uint32 token = Ret issued ->
        issued = now - 1 ->
        (4 <= length (addressValidator.nonce s))%nat ->
        addressValidator.Validate s now a token
        = Ret (default [] (aead_Open (addressValidator.aead s)
                             (token_nonce s (take 4 token)) (drop 4 token)
                             (bytes.of_string (addr_String a))))).
Proof.
  intros Hi. unfold is_int64 in Hi.
  assert (Hlong : forall issued, BigEndian.Uint32 token = Ret issued ->
                    (length token <? 4)%nat = false).
  { intros issued Hu. destruct token as [|b0 [|b1 [|b2 [|b3 rest]]]];
      try discriminate Hu. reflexivity. }
  repeat split.
  - intros Hlen. unfold addressValidator.Validate.
    destruct (Nat.ltb_spec (length token) 4); [reflexivity|lia].
  - intros issued Hu Hold. pose proof (Uint32_range _ _ Hu) as Hr.
    unfold addressValidator.Validate, addressValidator.validity.
    rewrite (Hlong _ Hu), Hu. cbn [go_bind].
    rewrite int64_small by (unfold is_int64; lia).
    destruct (Z.ltb_spec issued (now - 10)); [reflexivity|lia].
  - intros issued Hu Hnew.
    unfold addressValidator.Validate.
    rewrite (Hlong _ Hu), Hu. cbn [go_bind].
    destruct (Z.gtb_spec issued now); [|lia].
    rewrite orb_true_r. reflexivity.
  - intros issued Hu Hone Hn. pose proof (Uint32_range _ _ Hu) as Hr.
    pose proof (Hlong _ Hu) as Hl. apply Nat.ltb_ge in Hl.
    destruct (split_token token Hl) as [Hsplit Hts].
    rewrite Hsplit in Hu. rewrite Hsplit at 1.
    rewrite (Validate_unfold s now a _ _ issued Hts Hn Hu).
    unfold addressValidator.validity.
    rewrite int64_small by (unfold is_int64; lia).
    destruct (Z.ltb_spec issued (now - 10)) as [?|_]; [lia|].
    destruct (Z.gtb_spec issued now) as [?|_]; [lia|]. reflexivity.
Qed.

Lemma C2_validity_window_witness :
  addressValidator.Validate toy.validator 100 toy.client1 [x00; x00; x00]
    = Ret []
  /\ addressValidator.Validate toy.validator 100 toy.client1
       (be32 89 ++ toy.Seal (token_nonce toy.validator (be32 89)) toy.odcid
                     (bytes.of_string (addr_String toy.client1)))
     = Ret []
  /\ addressValidator.Validate toy.validator 100 toy.client1
       (be32 101 ++ toy.Seal (token_nonce toy.validator (be32 101)) toy.odcid
                      (bytes.of_string (addr_String toy.client1)))
     = Ret []
  /\ addressValidator.Validate toy.validator 100 toy.client1
       (be32 99 ++ toy.Seal (token_nonce toy.validator (be32 99)) toy.odcid
                     (bytes.of_string (addr_String toy.client1)))
     = Ret toy.odcid.
Proof.
  assert (Hi : is_int64 100) by (unfold is_int64; lia).
  split; [|split; [|split]].
  - apply (C2_validity_window toy.validator 100 toy.client1 _ Hi). simpl. lia.
  - apply (proj1 (proj2 (C2_validity_window toy.validator 100 toy.client1 _ Hi))
             89); [reflexivity|lia].
  - apply (proj1 (proj2 (proj2
             (C2_validity_window toy.validator 100 toy.client1 _ Hi))) 101);
      [reflexivity|lia].
  - rewrite (proj2 (proj2 (proj2
             (C2_validity_window toy.validator 100 toy.client1 _ Hi))) 99);
      [reflexivity|reflexivity|lia|simpl; lia].
Defined.

(** C3: a token made by [Generate] for one address is answered invalid by
    [Validate] for any other address, at any time: the sender address is
    the additional authenticated data, so the AEAD refuses to open it (the
    AEAD's authentication of the additional data is what is assumed of
    it), and [Validate] turns that refusal into the invalid answer. *)
Theorem C3_other_address_invalid (s : addressValidator.t) (now now' : Z)
    (a1 a2 : Addr) (odcid token : list byte) :
  aead_exact_overhead (addressValidator.aead s) ->
  validator_wf s ->
  aead_rejects (addressValidator.aead s)
    (bytes.of_string (addr_String a1)) (bytes.of_string (addr_String a2)) ->
  addressValidator.Generate s now a1 odcid = Ret token ->
  addressValidator.Validate s now' a2 token = Ret [].
Proof.
  intros Hov Hwf Hrej Hgen.
  rewrite Generate_sealed in Hgen by assumption.
  assert (Htok : token = be32 (uint32 now)
                         ++ aead_Seal (addressValidator.aead s)
                              (token_nonce s (be32 (uint32 now))) odcid
                              (bytes.of_string (addr_String a1)))
    by congruence.
  rewrite Htok. clear Hgen Htok. destruct Hwf as [Hsz Hn].
  rewrite (Validate_unfold s now' a2 _ _ (uint32 now))
    by (reflexivity || exact Hn || (apply be32_Uint32; apply uint32_range)).
  destruct (_ || _); [reflexivity|].
  rewrite Hrej by (rewrite length_token_nonce; auto).
  reflexivity.
Qed.

Lemma C3_other_address_witness :
  exists token,
    addressValidator.Generate toy.validator 1700000000 toy.client1 toy.odcid
      = Ret token
    /\ addressValidator.Validate toy.validator 1700000001 toy.client2 token
      = Ret [].
Proof.
  eexists. split; [vm_compute; reflexivity|].
  apply (C3_other_address_invalid toy.validator 1700000000 1700000001
           toy.client1 toy.client2 toy.odcid).
  - exact toy_exact_overhead.
  - exact toy_validator_wf.
  - exact toy_rejects_other_client.
  - vm_compute. reflexivity.
Defined.

(** ** Claims about dispatch and admission *)

(** C4: a datagram whose DCID is not in the registry and whose type is not
    Initial, or which is shorter than 1200 bytes, is dropped by the server:
    its buffer is released once, no admission step runs (no reply, no
    scratch buffer, no new connection routine), and the registry stays as
    it was, whatever else the header holds. *)
Theorem C4_invalid_initial_dropped `{E : transport.Engine} (e : env)
    (live : gset nat) (s : Server.t) (p : packet) (h : transport.Header) :
  transport.Decode (data p) transport.MaxCIDLength = Ok h ->
  peers (Server.lc s) !! transport.DCID h = None ->
  (transport.Type_ h <> 0 \/ len (data p) < transport.MinInitialPacketSize) ->
  Server.recv e live s p
    = [Log LevelDebug "%s received packet %s"; RLock; RUnlock]
      ++ (if closing (Server.lc s) then []
          else [Log LevelDebug "%s dropped invalid initial packet: %s"])
      ++ [freePacket (ptr p)]
  /\ count (is_free (ptr p)) (Server.recv e live s p) = 1%nat
  /\ count is_admission (Server.recv e live s p) = 0%nat
  /\ Server.deliver e live s p = Ret (s, Server.recv e live s p).
Proof.
  intros Hdec Hnone Hbad.
  assert (Hrecv : Server.recv e live s p
    = [Log LevelDebug "%s received packet %s"; RLock; RUnlock]
      ++ (if closing (Server.lc s) then []
          else [Log LevelDebug "%s dropped invalid initial packet: %s"])
      ++ [freePacket (ptr p)]).
  { unfold Server.recv. rewrite Hdec. cbn [set_header header data ptr].
    destruct (closing (Server.lc s)); [reflexivity|].
    rewrite Hnone.
    assert (Hc : negb (transport.Type_ h =? 0)
                 || (len (data p) <? transport.MinInitialPacketSize) = true).
    { destruct Hbad as [Hty|Hlen].
      - apply Z.eqb_neq in Hty. rewrite Hty. reflexivity.
      - apply Z.ltb_lt in Hlen. rewrite Hlen. apply orb_true_r. }
    rewrite Hc. reflexivity. }
  split; [exact Hrecv|].
  unfold Server.deliver. rewrite Hrecv.
  destruct (closing (Server.lc s)); cbn; rewrite Nat.eqb_refl; auto.
Qed.

Lemma C4_invalid_initial_witness :
  Server.recv toy_engine.world toy_engine.in_use toy_engine.server
    toy_engine.small_initial
    = [Log LevelDebug "%s received packet %s"; RLock; RUnlock;
       Log LevelDebug "%s dropped invalid initial packet: %s"; freePacket 7]
  /\ count (is_free 7) (Server.recv toy_engine.world toy_engine.in_use
                          toy_engine.server toy_engine.small_initial) = 1%nat
  /\ count is_admission (Server.recv toy_engine.world toy_engine.in_use
                           toy_engine.server toy_engine.small_initial) = 0%nat
  /\ Server.deliver toy_engine.world toy_engine.in_use toy_engine.server
       toy_engine.small_initial
     = Ret (toy_engine.server,
            Server.recv toy_engine.world toy_engine.in_use toy_engine.server
              toy_engine.small_initial).
Proof.
  apply (C4_invalid_initial_dropped toy_engine.world toy_engine.in_use
           toy_engine.server toy_engine.small_initial
           (header (toy_engine.decoded toy_engine.small_initial))).
  - vm_compute. reflexivity.
  - apply lookup_empty.
  - right. vm_compute. reflexivity.
Defined.

(** C5: a datagram with an unknown DCID that passes the type and size
    check but declares another version than the supported one makes the
    server write one version-negotiation datagram, to the sender, and
    release the packet; no connection routine is started and the registry
    stays as it was. The reply is the one the engine builds from the
    packet's CIDs. *)
Theorem C5_unsupported_version `{E : transport.Engine} (e : env)
    (live : gset nat) (s : Server.t) (p : packet) (h : transport.Header)
    (reply : list byte) :
  transport.Decode (data p) transport.MaxCIDLength = Ok h ->
  closing (Server.lc s) = false ->
  peers (Server.lc s) !! transport.DCID h = None ->
  transport.Type_ h = 0 ->
  transport.MinInitialPacketSize <= len (data p) ->
  transport.Version h <> transport.ProtocolVersion ->
  transport.NegotiateVersion (transport.SCID h) (transport.DCID h) = Ok reply ->
  Server.recv e live s p
    = [Log LevelDebug "%s received packet %s"; RLock; RUnlock;
       newPacket (pool_get live); WriteTo reply (addr p)]
      ++ match env_write e with
         | Some _ => [Log LevelError "%s negotiate: %s %v"]
         | None => [Log LevelDebug "%s negotiate: newversion=%d %s";
                    Log LevelTrace "%s sent %d bytes\n%x"]
         end
      ++ [freePacket (pool_get live); freePacket (ptr p)]
  /\ count is_write (Server.recv e live s p) = 1%nat
  /\ count is_spawn (Server.recv e live s p) = 0%nat
  /\ Server.deliver e live s p = Ret (s, Server.recv e live s p).
Proof.
  intros Hdec Hopen Hnone Hty Hlen Hver Hreply.
  assert (Hrecv : Server.recv e live s p
    = [Log LevelDebug "%s received packet %s"; RLock; RUnlock;
       newPacket (pool_get live); WriteTo reply (addr p)]
      ++ match env_write e with
         | Some _ => [Log LevelError "%s negotiate: %s %v"]
         | None => [Log LevelDebug "%s negotiate: newversion=%d %s";
                    Log LevelTrace "%s sent %d bytes\n%x"]
         end
      ++ [freePacket (pool_get live); freePacket (ptr p)]).
  { unfold Server.recv, Server.negotiate. rewrite Hdec.
    cbn [set_header header data ptr addr].
    rewrite Hopen, Hnone, Hty, Hreply.
    apply Z.ltb_ge in Hlen. rewrite Hlen.
    apply Z.eqb_neq in Hver. rewrite Hver. cbn [negb orb Z.eqb].
    destruct (env_write e); reflexivity. }
  split; [exact Hrecv|].
  unfold Server.deliver. rewrite Hrecv.
  destruct (env_write e); cbn; auto.
Qed.

Lemma C5_unsupported_version_witness :
  exists reply,
    Server.recv toy_engine.world toy_engine.in_use toy_engine.server
      toy_engine.other_version
    = [Log LevelDebug "%s received packet %s"; RLock; RUnlock;
       newPacket (pool_get toy_engine.in_use); WriteTo reply toy.client1;
       Log LevelDebug "%s negotiate: newversion=%d %s";
       Log LevelTrace "%s sent %d bytes\n%x";
       freePacket (pool_get toy_engine.in_use); freePacket 7]
    /\ count is_write (Server.recv toy_engine.world toy_engine.in_use
                         toy_engine.server toy_engine.other_version) = 1%nat
    /\ count is_spawn (Server.recv toy_engine.world toy_engine.in_use
                         toy_engine.server toy_engine.other_version) = 0%nat
    /\ Server.deliver toy_engine.world toy_engine.in_use toy_engine.server
         toy_engine.other_version
       = Ret (toy_engine.server,
              Server.recv toy_engine.world toy_engine.in_use
                toy_engine.server toy_engine.other_version).
Proof.
  eexists.
  apply (C5_unsupported_version toy_engine.world toy_engine.in_use
           toy_engine.server toy_engine.other_version
           (header (toy_engine.decoded toy_engine.other_version))).
  - vm_compute. reflexivity.
  - reflexivity.
  - apply lookup_empty.
  - vm_compute. reflexivity.
  - vm_compute. discriminate.
  - vm_compute. discriminate.
  - reflexivity.
Defined.

(** C6: the registry never holds two connections under one local CID.
    Whatever [handleNewConn] and [Connect] do, every entry present before is
    present, unchanged, after. When the local CID chosen for a new server
    connection is already a key, the server logs an error and releases the
    packet, and the registry is as before. Two connections taken in by the
    server, the second while the first is still registered, have different
    local CIDs and both are registered afterwards. When the CID generated by
    [Connect] is already a key, [Connect] returns the conflict error and the
    registry is as before. Each region under the exclusive lock is one step
    of the model, so a run of [handleNewConn] or [Connect] stands for the
    moment it holds the lock. *)
Theorem C6_no_overwrite `{E : transport.Engine} :
  (forall (e : env) (live : gset nat) (s s' : Server.t) (p : packet)
          (evs : list event),
     Server.handleNewConn e live s p = Ret (s', evs) ->
     peers (Server.lc s) ⊆ peers (Server.lc s'))
  /\ (forall (e : env) (live : gset nat) (s : Server.t) (p : packet)
             (odcid : list byte) (c other : remoteConn),
        token_accepted e s p odcid ->
        Server.newConn e (addr p) (transport.DCID (header p)) odcid = Ok c ->
        closing (Server.lc s) = false ->
        peers (Server.lc s) !! scid c = Some other ->
        Server.handleNewConn e live s p
        = Ret (s, [Lock; Unlock;
                   Log LevelError "%s connection id conflict scid=%x";
                   freePacket (ptr p)]))
  /\ (forall (e1 e2 : env) (live1 live2 : gset nat) (s0 s1 s1' s2 : Server.t)
             (p1 p2 : packet) (evs1 evs2 : list event) (c1 c2 : remoteConn),
        Server.handleNewConn e1 live1 s0 p1 = Ret (s1, evs1) ->
        handleConn c1 ∈ evs1 ->
        peers (Server.lc s1') !! scid c1 = Some c1 ->
        Server.handleNewConn e2 live2 s1' p2 = Ret (s2, evs2) ->
        handleConn c2 ∈ evs2 ->
        scid c1 <> scid c2
        /\ peers (Server.lc s2) !! scid c1 = Some c1
        /\ peers (Server.lc s2) !! scid c2 = Some c2)
  /\ (forall (e : env) (live : gset nat) (s s' : Client.t) (a : string)
             (evs : list event) (r : option error),
        Client.Connect e live s a = (s', evs, r) ->
        peers s ⊆ peers s')
  /\ (forall (e : env) (live : gset nat) (s : Client.t) (a : string)
             (c other : remoteConn),
        Client.newConn e a = Ok c ->
        closing s = false ->
        peers s !! scid c = Some other ->
        Client.Connect e live s a
        = (s, [Lock; Unlock], Some (ErrConflict (scid c)))).
Proof.
  assert (Hkeep : forall (e : env) (live : gset nat) (s s' : Server.t)
            (p : packet) (evs : list event),
            Server.handleNewConn e live s p = Ret (s', evs) ->
            peers (Server.lc s) ⊆ peers (Server.lc s')).
  { intros e live s s' p evs. unfold Server.handleNewConn.
    destruct (Server.addrValid s) as [v|].
    - destruct (len (transport.Token (header p)) =? 0).
      + destruct (Server.retry _ _ _ _ _) as [r|]; [|discriminate].
        cbn [go_bind]. intros [= <- _]. reflexivity.
      + destruct (Server.verifyToken _ _ _ _) as [odcid|]; [|discriminate].
        cbn [go_bind]. destruct (len odcid =? 0).
        * intros [= <- _]. reflexivity.
        * intros [= H]. pose proof (enroll_keeps_entries e s p odcid) as Hk.
          rewrite H in Hk. exact Hk.
    - intros [= H]. pose proof (enroll_keeps_entries e s p []) as Hk.
      rewrite H in Hk. exact Hk. }
  split; [exact Hkeep|]. split; [|split; [|split]].
  - intros e live s p odcid c other Hacc Hnew Hopen Hkey.
    rewrite (handleNewConn_accepted e live s p odcid Hacc).
    unfold Server.enroll. rewrite Hnew, Hopen, Hkey. reflexivity.
  - intros e1 e2 live1 live2 s0 s1 s1' s2 p1 p2 evs1 evs2 c1 c2
      Hrun1 Hc1 Hstill Hrun2 Hc2.
    destruct (handleNewConn_started e2 live2 s1' s2 p2 evs2 c2 Hrun2 Hc2)
      as (odcid & _ & Hfree & Hreg).
    split; [|split].
    + intros Heq. rewrite Heq in Hstill. congruence.
    + pose proof (Hkeep e2 live2 s1' s2 p2 evs2 Hrun2) as Hsub.
      exact (lookup_weaken _ _ _ _ Hstill Hsub).
    + exact Hreg.
  - intros e live s s' a evs r. unfold Client.Connect.
    destruct (Client.newConn e a) as [c|]; [|intros [= <- _ _]; reflexivity].
    destruct (closing s); [intros [= <- _ _]; reflexivity|].
    destruct (peers s !! scid c) eqn:Hk; [intros [= <- _ _]; reflexivity|].
    destruct (env_send e).
    + intros [= <- _ _]. cbn [peers set_peers].
      rewrite delete_insert_id by exact Hk. reflexivity.
    + intros [= <- _ _]. cbn [peers set_peers].
      apply insert_subseteq. exact Hk.
  - intros e live s a c other Hnew Hopen Hkey.
    unfold Client.Connect. rewrite Hnew, Hopen, Hkey. reflexivity.
Qed.

Lemma C6_no_overwrite_witness :
  peers toy_engine.occupied
    ⊆ peers (Server.lc toy_engine.busy_server)
  /\ Server.handleNewConn toy_engine.world toy_engine.in_use
       toy_engine.busy_server (toy_engine.decoded toy_engine.initial)
     = Ret (toy_engine.busy_server,
            [Lock; Unlock; Log LevelError "%s connection id conflict scid=%x";
             freePacket 7])
  /\ Client.Connect toy_engine.world toy_engine.in_use toy_engine.busy_client
       "192.0.2.9:4433"
     = (toy_engine.busy_client, [Lock; Unlock],
        Some (ErrConflict toy_engine.random_cid)).
Proof.
  destruct C6_no_overwrite as (Hkeep & Hserver & _ & _ & Hclient).
  assert (Hrun : Server.handleNewConn toy_engine.world toy_engine.in_use
       toy_engine.busy_server (toy_engine.decoded toy_engine.initial)
     = Ret (toy_engine.busy_server,
            [Lock; Unlock; Log LevelError "%s connection id conflict scid=%x";
             freePacket 7])).
  { apply (Hserver toy_engine.world toy_engine.in_use toy_engine.busy_server
             (toy_engine.decoded toy_engine.initial) []
             toy_engine.first_conn toy_engine.held).
    - reflexivity.
    - vm_compute. reflexivity.
    - reflexivity.
    - apply lookup_singleton_eq. }
  split; [exact (Hkeep _ _ _ _ _ _ Hrun)|]. split; [exact Hrun|].
  apply (Hclient toy_engine.world toy_engine.in_use toy_engine.busy_client
           "192.0.2.9:4433"
           {| scid := toy_engine.random_cid;
              rc_addr := {| addr_Network := "udp";
                            addr_String := "192.0.2.9:4433" |};
              conn := transport.connecting toy_engine.random_cid |}
           toy_engine.taken).
  - vm_compute. reflexivity.
  - reflexivity.
  - apply lookup_singleton_eq.
Defined.

(** C7: when [Connect] has put the new connection into the registry and
    sending the first datagram fails, it takes the entry out again, so
    the registry is what it was before the call, and returns the send
    error; when sending succeeds the entry stays, the connection's
    routine is started in the background and [Connect] returns nil right
    after the send, without waiting for the handshake. *)
Theorem C7_connect_send `{E : transport.Engine} (e : env) (live : gset nat)
    (s : Client.t) (a : string) (c : remoteConn) :
  Client.newConn e a = Ok c ->
  closing s = false ->
  peers s !! scid c = None ->
  (forall err, env_send e = Some err ->
     Client.Connect e live s a
     = (s,
        [Lock; Unlock; newPacket (pool_get live); sendConn c;
         Lock; Unlock; freePacket (pool_get live)],
        Some (ErrSend (rc_addr c) err)))
  /\ (env_send e = None ->
      Client.Connect e live s a
      = (set_peers s (<[scid c := c]> (peers s)),
         [Lock; Unlock; newPacket (pool_get live); sendConn c;
          go_handleConn c; freePacket (pool_get live)],
         None)
      /\ peers (set_peers s (<[scid c := c]> (peers s))) !! scid c = Some c).
Proof.
  intros Hnew Hopen Hfree. unfold Client.Connect.
  rewrite Hnew, Hopen, Hfree. split.
  - intros err ->. cbn [peers set_peers closing].
    rewrite delete_insert_id by exact Hfree.
    destruct s as [cl ps]. cbn in *. rewrite Hopen. reflexivity.
  - intros ->. split; [reflexivity|]. cbn [peers set_peers].
    apply lookup_insert_eq.
Qed.

Lemma C7_connect_send_witness :
  Client.Connect toy_engine.send_fails toy_engine.in_use toy_engine.idle
    "192.0.2.9:4433"
  = (toy_engine.idle,
     [Lock; Unlock; newPacket (pool_get toy_engine.in_use);
      sendConn {| scid := toy_engine.random_cid;
                  rc_addr := {| addr_Network := "udp";
                                addr_String := "192.0.2.9:4433" |};
                  conn := transport.connecting toy_engine.random_cid |};
      Lock; Unlock; freePacket (pool_get toy_engine.in_use)],
     Some (ErrSend {| addr_Network := "udp"; addr_String := "192.0.2.9:4433" |}
             (ErrExternal "network is unreachable"))).
Proof.
  apply (C7_connect_send toy_engine.send_fails toy_engine.in_use
           toy_engine.idle "192.0.2.9:4433"
           {| scid := toy_engine.random_cid;
              rc_addr := {| addr_Network := "udp";
                            addr_String := "192.0.2.9:4433" |};
              conn := transport.connecting toy_engine.random_cid |}).
  - vm_compute. reflexivity.
  - reflexivity.
  - apply lookup_empty.
  - reflexivity.
Defined.

(** C8, as written, on two Initial packets whose SCID has the required 20
    bytes: the connection the server creates does not take the client's
    SCID as its local CID. It takes the packet's DCID when that has 20
    bytes, and random bytes when the DCID is shorter. *)
Lemma C8_local_cid_is_not_client_scid :
  (exists s' evs c,
     Server.handleNewConn toy_engine.world toy_engine.in_use toy_engine.server
       (toy_engine.decoded toy_engine.initial) = Ret (s', evs)
     /\ handleConn c ∈ evs
     /\ len (transport.SCID (header (toy_engine.decoded toy_engine.initial)))
        = transport.MaxCIDLength
     /\ scid c <> transport.SCID (header (toy_engine.decoded toy_engine.initial))
     /\ scid c = transport.DCID (header (toy_engine.decoded toy_engine.initial)))
  /\ (exists s' evs c,
     Server.handleNewConn toy_engine.world toy_engine.in_use toy_engine.server
       (toy_engine.decoded toy_engine.short_dcid_initial) = Ret (s', evs)
     /\ handleConn c ∈ evs
     /\ len (transport.SCID
               (header (toy_engine.decoded toy_engine.short_dcid_initial)))
        = transport.MaxCIDLength
     /\ scid c <> transport.SCID
                    (header (toy_engine.decoded toy_engine.short_dcid_initial))
     /\ scid c = toy_engine.random_cid).
Proof.
  split.
  - eexists _, _,
      {| scid := toy_engine.cid_d; rc_addr := toy.client1;
         conn := transport.accepting toy_engine.cid_d [] |}.
    split; [vm_compute; reflexivity|].
    split; [do 4 apply list_elem_of_further; apply list_elem_of_here|].
    split; [vm_compute; reflexivity|].
    split; [vm_compute; discriminate|vm_compute; reflexivity].
  - eexists _, _,
      {| scid := toy_engine.random_cid; rc_addr := toy.client1;
         conn := transport.accepting toy_engine.random_cid [] |}.
    split; [vm_compute; reflexivity|].
    split; [do 4 apply list_elem_of_further; apply list_elem_of_here|].
    split; [vm_compute; reflexivity|].
    split; [vm_compute; discriminate|reflexivity].
Qed.

(** C8 (amended): the local CID of the connection the server creates for
    an enrolled Initial packet is the packet's DCID (the CID the client
    addressed the server by) whenever that DCID has exactly the required
    length of 20 bytes, and 20 freshly generated random bytes otherwise;
    the connection is registered under that CID. *)
Theorem C8_local_cid_from_dcid `{E : transport.Engine} (e : env)
    (live : gset nat) (s s' : Server.t) (p : packet) (evs : list event)
    (c : remoteConn) :
  Server.handleNewConn e live s p = Ret (s', evs) ->
  handleConn c ∈ evs ->
  len (scid c) = transport.MaxCIDLength
  /\ (len (transport.DCID (header p)) = transport.MaxCIDLength ->
      scid c = transport.DCID (header p))
  /\ (len (transport.DCID (header p)) <> transport.MaxCIDLength ->
      exists f, env_rand e = Some f
                /\ scid c = f <$> seq 0 (Z.to_nat transport.MaxCIDLength))
  /\ peers (Server.lc s') !! scid c = Some c.
Proof.
  intros Hrun Hc.
  destruct (handleNewConn_started e live s s' p evs c Hrun Hc)
    as (odcid & Hnew & _ & Hreg).
  destruct (Server_newConn_scid e _ _ _ c Hnew) as (Hlen & Hsame & Hrand).
  auto.
Qed.

Lemma C8_local_cid_from_dcid_witness :
  len (scid toy_engine.first_conn) = transport.MaxCIDLength
  /\ (len (transport.DCID (header (toy_engine.decoded toy_engine.initial)))
      = transport.MaxCIDLength ->
      scid toy_engine.first_conn
      = transport.DCID (header (toy_engine.decoded toy_engine.initial)))
  /\ (len (transport.DCID (header (toy_engine.decoded toy_engine.initial)))
      <> transport.MaxCIDLength ->
      exists f, env_rand toy_engine.world = Some f
                /\ scid toy_engine.first_conn
                   = f <$> seq 0 (Z.to_nat transport.MaxCIDLength))
  /\ peers (Server.lc toy_engine.enrolled) !! scid toy_engine.first_conn
     = Some toy_engine.first_conn.
Proof.
  apply (C8_local_cid_from_dcid toy_engine.world toy_engine.in_use
           toy_engine.server toy_engine.enrolled
           (toy_engine.decoded toy_engine.initial)
           [Lock; Unlock;
            Log LevelDebug "%s new connection scid=%x odcid=%x";
            recvCh_send toy_engine.first_conn
              (toy_engine.decoded toy_engine.initial);
            handleConn toy_engine.first_conn]
           toy_engine.first_conn).
  - unfold Server.handleNewConn, Server.enroll.
    cbn [Server.addrValid toy_engine.server].
    replace (Server.newConn toy_engine.world
               (addr (toy_engine.decoded toy_engine.initial))
               (transport.DCID (header (toy_engine.decoded toy_engine.initial)))
               []) with (Ok toy_engine.first_conn) by (vm_compute; reflexivity).
    cbn [Server.lc toy_engine.server toy_engine.idle closing peers].
    rewrite lookup_empty. rewrite insert_empty. reflexivity.
  - do 4 apply list_elem_of_further. apply list_elem_of_here.
Defined.

(** C9, on the client's closing path: a client that is closing and
    receives a datagram whose header decodes returns from [recv] without
    releasing the buffer and without queueing it (the buffer is released
    zero times), while the server's [recv], in the same situation,
    releases it once. *)
Theorem C9_client_closing_keeps_buffer :
  Client.recv toy_engine.shutting_down toy_engine.initial
    = [Log LevelDebug "%s received packet %s"; RLock; RUnlock]
  /\ count (is_free 7)
       (Client.recv toy_engine.shutting_down toy_engine.initial) = 0%nat
  /\ count (is_queued 7)
       (Client.recv toy_engine.shutting_down toy_engine.initial) = 0%nat
  /\ Server.recv toy_engine.world toy_engine.in_use
       {| Server.lc := toy_engine.shutting_down; Server.addrValid := None |}
       toy_engine.initial
     = [Log LevelDebug "%s received packet %s"; RLock; RUnlock; freePacket 7].
Proof.
  assert (Hrecv : Client.recv toy_engine.shutting_down toy_engine.initial
    = [Log LevelDebug "%s received packet %s"; RLock; RUnlock]).
  { apply (Client_recv_closing _ _
             (header (toy_engine.decoded toy_engine.initial)));
      [vm_compute; reflexivity|reflexivity]. }
  rewrite Hrecv. split; [reflexivity|]. split; [reflexivity|].
  split; [reflexivity|]. vm_compute. reflexivity.
Qed.

(** C10: the token returned by [Generate] is the 4-byte big-endian stamp
    of the time in seconds, followed by the AEAD-sealed original DCID (tag
    included), so its length is 4 + len(odcid) + the AEAD overhead. *)
Theorem C10_token_layout (s : addressValidator.t) (now : Z) (a : Addr)
    (odcid : list byte) :
  aead_exact_overhead (addressValidator.aead s) ->
  validator_wf s ->
  exists stamp sealed,
    addressValidator.Generate s now a odcid = Ret (stamp ++ sealed)
    /\ length stamp = 4%nat
    /\ BigEndian.Uint32 stamp = Ret (uint32 now)
    /\ (0 <= now < 2 ^ 32 -> BigEndian.Uint32 stamp = Ret now)
    /\ sealed = aead_Seal (addressValidator.aead s) (token_nonce s stamp)
                  odcid (bytes.of_string (addr_String a))
    /\ length (stamp ++ sealed)
       = (4 + length odcid + aead_Overhead (addressValidator.aead s))%nat.
Proof.
  intros Hov Hwf. exists (be32 (uint32 now)). eexists.
  split; [apply Generate_sealed; assumption|].
  pose proof (uint32_range now) as Hr.
  assert (Hdec : BigEndian.Uint32 (be32 (uint32 now)) = Ret (uint32 now)).
  { rewrite <- (app_nil_r (be32 _)). apply be32_Uint32. exact Hr. }
  repeat split.
  - exact Hdec.
  - intros Hnow. rewrite Hdec. unfold uint32. rewrite Z.mod_small by lia.
    reflexivity.
  - destruct Hwf as [Hsz Hn].
    rewrite length_app, Hov by (rewrite length_token_nonce; auto).
    rewrite length_be32. lia.
Qed.

Lemma C10_token_layout_witness :
  exists stamp sealed,
    addressValidator.Generate toy.validator 1700000000 toy.client1 toy.odcid
      = Ret (stamp ++ sealed)
    /\ length stamp = 4%nat
    /\ BigEndian.Uint32 stamp = Ret (uint32 1700000000)
    /\ (0 <= 1700000000 < 2 ^ 32 -> BigEndian.Uint32 stamp = Ret 1700000000)
    /\ sealed = toy.Seal (token_nonce toy.validator stamp) toy.odcid
                  (bytes.of_string (addr_String toy.client1))
    /\ length (stamp ++ sealed) = (4 + length toy.odcid + 16)%nat.
Proof.
  apply (C10_token_layout toy.validator 1700000000 toy.client1 toy.odcid).
  - exact toy_exact_overhead.
  - exact toy_validator_wf.
Defined.


(* ================================================================== *)
(** * Further properties of the code *)

(** ** The server name of the client command *)

Lemma LastIndex_bounds (s : list byte) (c : byte) :
  -1 <= quince.LastIndex s c < len s.
Proof.
  induction s as [|b rest IH]; cbn [quince.LastIndex length]; [lia|].
  destruct (Z.ltb_spec (quince.LastIndex rest c) 0);
    [destruct (decide (b = c))|]; lia.
Qed.

Lemma LastIndex_absent (s : list byte) (c : byte) :
  quince.LastIndex s c < 0 <-> c ∉ s.
Proof.
  induction s as [|b rest IH]; cbn [quince.LastIndex].
  - split; [intros _; apply not_elem_of_nil|lia].
  - pose proof (LastIndex_bounds rest c) as Hb.
    rewrite not_elem_of_cons.
    destruct (Z.ltb_spec (quince.LastIndex rest c) 0) as [Hneg|Hpos].
    + destruct (decide (b = c)) as [->|Hne].
      * split; [lia|intros [Hc _]; contradiction].
      * split; [intros _; split; [congruence|apply IH; exact Hneg]|lia].
    + split; [lia|]. intros [_ Hc]. apply IH in Hc. lia.
Qed.

Lemma LastIndex_app (s t : list byte) (c : byte) :
  quince.LastIndex (s ++ t) c
  = if quince.LastIndex t c <? 0 then quince.LastIndex s c
    else len s + quince.LastIndex t c.
Proof.
  pose proof (LastIndex_bounds t c) as Ht.
  induction s as [|b rest IH].
  - cbn [app quince.LastIndex length].
    destruct (Z.ltb_spec (quince.LastIndex t c) 0); lia.
  - cbn [app quince.LastIndex length]. rewrite IH.
    pose proof (LastIndex_bounds rest c) as Hr.
    destruct (Z.ltb_spec (quince.LastIndex t c) 0) as [Hneg|Hpos].
    + reflexivity.
    + destruct (Z.ltb_spec (len rest + quince.LastIndex t c) 0); lia.
Qed.

Lemma LastIndex_split (s : list byte) (c : byte) (i : Z) :
  quince.LastIndex s c = i -> 0 <= i ->
  s = take (Z.to_nat i) s ++ c :: drop (S (Z.to_nat i)) s
  /\ c ∉ drop (S (Z.to_nat i)) s.
Proof.
  revert i. induction s as [|b rest IH]; intros i; cbn [quince.LastIndex].
  - lia.
  - destruct (Z.ltb_spec (quince.LastIndex rest c) 0) as [Hneg|Hpos].
    + destruct (decide (b = c)) as [->|Hne]; [|lia].
      intros <- _. cbn. split; [reflexivity|].
      rewrite drop_0. apply LastIndex_absent. exact Hneg.
    + intros <- _.
      destruct (IH _ eq_refl Hpos) as [Hs Hc].
      replace (Z.to_nat (quince.LastIndex rest c + 1))
        with (S (Z.to_nat (quince.LastIndex rest c))) by lia.
      cbn [take drop app]. split; [f_equal; exact Hs|exact Hc].
Qed.

Lemma LastIndex_before (s : list byte) (c : byte) (n : nat) :
  quince.LastIndex s c < Z.of_nat n -> c ∉ drop n s.
Proof.
  intros Hlt Hin.
  rewrite <- (take_drop n s) in Hlt. rewrite LastIndex_app in Hlt.
  destruct (Z.ltb_spec (quince.LastIndex (drop n s) c) 0) as [Hneg|Hge];
    [apply LastIndex_absent in Hneg; contradiction|].
  assert (Hle : (n <= length s)%nat).
  { destruct (Nat.le_gt_cases n (length s)) as [?|Hgt]; [assumption|].
    rewrite drop_ge in Hin by lia. apply elem_of_nil in Hin. contradiction. }
  rewrite length_take in Hlt. lia.
Qed.

Ltac absent := apply (bool_decide_unpack _); vm_compute; exact I.

(** X1: [serverName] undoes joining a host and a port: for a non-empty
    host (whatever it contains, an IPv6 literal in brackets included) and
    a port that holds neither ":" nor "]", the server name of
    host ":" port is the host. *)
Theorem X1_serverName_host_port (host port : list byte) :
  host <> [] ->
  quince.colon ∉ port ->
  quince.bracket ∉ port ->
  quince.serverName (host ++ quince.colon :: port) = host.
Proof.
  intros Hhost Hc Hb. unfold quince.serverName.
  assert (Hcolon : quince.LastIndex (host ++ quince.colon :: port) quince.colon
                   = len host).
  { rewrite LastIndex_app. cbn [quince.LastIndex].
    apply LastIndex_absent in Hc.
    destruct (Z.ltb_spec (quince.LastIndex port quince.colon) 0); [|lia].
    destruct (decide (quince.colon = quince.colon)); [|congruence].
    cbn. lia. }
  assert (Hbr : quince.LastIndex (host ++ quince.colon :: port) quince.bracket
                < len host).
  { rewrite LastIndex_app. cbn [quince.LastIndex].
    apply LastIndex_absent in Hb.
    destruct (Z.ltb_spec (quince.LastIndex port quince.bracket) 0); [|lia].
    destruct (decide (quince.colon = quince.bracket)); [discriminate|].
    cbn. pose proof (LastIndex_bounds host quince.bracket). lia. }
  rewrite Hcolon.
  assert (Hlen : 0 < len host) by (destruct host; [contradiction|cbn; lia]).
  destruct (Z.ltb_spec 0 (len host)); [|lia].
  destruct (Z.ltb_spec
              (quince.LastIndex (host ++ quince.colon :: port) quince.bracket)
              (len host)); [|lia].
  rewrite Nat2Z.id. apply take_app_length.
Qed.

Lemma X1_serverName_host_port_witness :
  quince.serverName
    (bytes.of_string "[2001:db8::1]" ++ quince.colon :: bytes.of_string "4433")
  = bytes.of_string "[2001:db8::1]".
Proof.
  apply X1_serverName_host_port.
  - vm_compute. discriminate.
  - absent.
  - absent.
Defined.

(** X2: [serverName] returns its argument, or its argument without a
    final ":port": what it cuts off starts at a ":" and holds no further
    ":" and no "]", and what is left is not empty. *)
Theorem X2_serverName_cuts_only_port (s : list byte) :
  quince.serverName s = s
  \/ exists port,
       s = quince.serverName s ++ quince.colon :: port
       /\ (quince.colon ∉ port)
       /\ (quince.bracket ∉ port)
       /\ quince.serverName s <> [].
Proof.
  unfold quince.serverName.
  destruct (Z.ltb_spec 0 (quince.LastIndex s quince.colon)) as [Hpos|];
    [|left; reflexivity].
  destruct (Z.ltb_spec (quince.LastIndex s quince.bracket)
              (quince.LastIndex s quince.colon)) as [Hbr|];
    [|left; reflexivity].
  right.
  destruct (LastIndex_split s quince.colon _ eq_refl) as [Hs Hc]; [lia|].
  exists (drop (S (Z.to_nat (quince.LastIndex s quince.colon))) s).
  split; [exact Hs|]. split; [exact Hc|]. split.
  - apply LastIndex_before. lia.
  - pose proof (LastIndex_bounds s quince.colon) as Hb.
    intros Hnil. apply (f_equal length) in Hnil.
    rewrite length_take in Hnil. cbn in Hnil. lia.
Qed.

(** X3: [serverName] leaves alone a name without ":", a name in which a
    "]" comes after the last ":" (an IPv6 literal in brackets without a
    port), and a name whose only ":" is its first byte (a port without a
    host). *)
Theorem X3_serverName_unchanged :
  (forall s, quince.colon ∉ s -> quince.serverName s = s)
  /\ (forall pre suf, quince.colon ∉ suf ->
        quince.serverName (pre ++ quince.bracket :: suf)
        = pre ++ quince.bracket :: suf)
  /\ (forall port, quince.colon ∉ port ->
        quince.serverName (quince.colon :: port) = quince.colon :: port).
Proof.
  split; [|split].
  - intros s Hc. unfold quince.serverName.
    apply LastIndex_absent in Hc.
    destruct (Z.ltb_spec 0 (quince.LastIndex s quince.colon)); [lia|reflexivity].
  - intros pre suf Hc. unfold quince.serverName.
    destruct (Z.ltb_spec 0 (quince.LastIndex (pre ++ quince.bracket :: suf)
                              quince.colon)) as [Hpos|]; [|reflexivity].
    destruct (Z.ltb_spec
                (quince.LastIndex (pre ++ quince.bracket :: suf) quince.bracket)
                (quince.LastIndex (pre ++ quince.bracket :: suf) quince.colon))
      as [Hlt|]; [|reflexivity]. exfalso.
    rewrite !LastIndex_app in Hlt. cbn [quince.LastIndex] in Hlt.
    apply LastIndex_absent in Hc.
    pose proof (LastIndex_bounds suf quince.bracket) as Hb.
    pose proof (LastIndex_bounds pre quince.colon) as Hp.
    destruct (Z.ltb_spec (quince.LastIndex suf quince.colon) 0); [|lia].
    destruct (decide (quince.bracket = quince.colon)); [discriminate|].
    destruct (Z.ltb_spec (quince.LastIndex suf quince.bracket) 0).
    + destruct (decide (quince.bracket = quince.bracket)); [|congruence].
      cbn in Hlt. lia.
    + destruct (Z.ltb_spec (quince.LastIndex suf quince.bracket + 1) 0);
        cbn in Hlt; lia.
  - intros port Hc. unfold quince.serverName. cbn [quince.LastIndex].
    apply LastIndex_absent in Hc.
    destruct (Z.ltb_spec (quince.LastIndex port quince.colon) 0); [|lia].
    destruct (decide (quince.colon = quince.colon)); [|congruence].
    reflexivity.
Qed.

Lemma X3_serverName_unchanged_witness :
  quince.serverName (bytes.of_string "example.com")
    = bytes.of_string "example.com"
  /\ quince.serverName (bytes.of_string "[2001:db8::1" ++ quince.bracket :: [])
     = bytes.of_string "[2001:db8::1" ++ quince.bracket :: []
  /\ quince.serverName (quince.colon :: bytes.of_string "4433")
     = quince.colon :: bytes.of_string "4433".
Proof.
  destruct X3_serverName_unchanged as (Hplain & Hliteral & Hport).
  split; [|split].
  - apply Hplain. absent.
  - apply Hliteral. absent.
  - apply Hport. absent.
Defined.

(** ** The address validator, beyond the round trip *)


Lemma Uint32_long (token : list byte) :
  (4 <= length token)%nat -> exists issued, BigEndian.Uint32 token = Ret issued.
Proof.
  destruct token as [|b0 [|b1 [|b2 [|b3 rest]]]]; cbn [length]; try lia.
  intros _. eexists. reflexivity.
Qed.

(** [Validate] on a token of at least four bytes, split at four. *)
Lemma Validate_long (s : addressValidator.t) (now : Z) (a : Addr)
    (token : list byte) :
  (4 <= length (addressValidator.nonce s))%nat ->
  (4 <= length token)%nat ->
  exists issued,
    BigEndian.Uint32 token = Ret issued
    /\ addressValidator.Validate s now a token
       = if (issued <? int64 (now - addressValidator.validity))
            || (issued >? now)
         then Ret []
         else Ret (default [] (aead_Open (addressValidator.aead s)
                                 (token_nonce s (take 4 token)) (drop 4 token)
                                 (bytes.of_string (addr_String a)))).
Proof.
  intros Hn Hlong.
  destruct (Uint32_long token Hlong) as [issued Hu].
  destruct (split_token token Hlong) as [Hsplit Hts].
  exists issued. split; [exact Hu|].
  rewrite Hsplit in Hu. rewrite Hsplit at 1.
  apply (Validate_unfold s now a _ _ issued Hts Hn Hu).
Qed.

Lemma Validate_no_panic (s : addressValidator.t) (now : Z) (a : Addr)
    (token : list byte) :
  (4 <= length (addressValidator.nonce s))%nat ->
  addressValidator.Validate s now a token <> Panic.
Proof.
  intros Hn.
  destruct (Nat.lt_ge_cases (length token) 4) as [Hshort|Hlong].
  - unfold addressValidator.Validate.
    destruct (Nat.ltb_spec (length token) 4); [discriminate|lia].
  - destruct (Validate_long s now a token Hn Hlong) as (issued & _ & ->).
    destruct (_ || _); discriminate.
Qed.





(** X6: a validator that [newAddressValidator] returns has a nonce of
    exactly [NonceSize] bytes and an AEAD built by [NewGCM] over the
    cipher of a 16-byte key; so with an AEAD whose nonce has at least
    four bytes (GCM: twelve) it is well formed, and [Generate] and
    [Validate] do not panic on it. *)
Theorem X6_newAddressValidator_well_formed {Block : Type}
    (NewCipher : list byte -> result Block) (NewGCM : Block -> result AEAD)
    (key_rand nonce_rand : result (nat -> byte)) (v : addressValidator.t) :
  newAddressValidator NewCipher NewGCM key_rand nonce_rand = Ok v ->
  length (addressValidator.nonce v) = aead_NonceSize (addressValidator.aead v)
  /\ (exists key blk,
        length key = 16%nat /\ NewCipher key = Ok blk
        /\ NewGCM blk = Ok (addressValidator.aead v))
  /\ ((4 <= aead_NonceSize (addressValidator.aead v))%nat ->
      validator_wf v
      /\ (forall now a odcid, addressValidator.Generate v now a odcid <> Panic)
      /\ (forall now a token, addressValidator.Validate v now a token <> Panic)).
Proof.
  unfold newAddressValidator.
  destruct key_rand as [f|]; [|discriminate].
  destruct (NewCipher _) as [blk|] eqn:Hc; [|discriminate].
  destruct (NewGCM blk) as [a|] eqn:Hg; [|discriminate].
  destruct nonce_rand as [g|]; [|discriminate].
  intros [= <-]. cbn [addressValidator.nonce addressValidator.aead].
  assert (Hlen : length (g <$> seq 0 (aead_NonceSize a)) = aead_NonceSize a)
    by (rewrite length_fmap, length_seq; reflexivity).
  split; [exact Hlen|]. split.
  - exists (f <$> seq 0 16), blk. repeat split; assumption.
  - intros Hsz.
    split; [split; [exact Hlen|cbn [addressValidator.nonce]; lia]|]. split.
    + intros now ad odcid.
      rewrite Generate_unfold by (cbn [addressValidator.nonce]; lia).
      discriminate.
    + intros now ad token. apply Validate_no_panic.
      cbn [addressValidator.nonce]. lia.
Qed.

Lemma X6_newAddressValidator_witness :
  exists v,
    newAddressValidator (Block := list byte) Ok (fun _ => Ok toy.cipher)
      (Ok (fun i => bytes.of_Z (Z.of_nat i)))
      (Ok (fun i => bytes.of_Z (17 * Z.of_nat i))) = Ok v
    /\ length (addressValidator.nonce v)
       = aead_NonceSize (addressValidator.aead v)
    /\ validator_wf v.
Proof.
  eexists. split; [reflexivity|].
  destruct (X6_newAddressValidator_well_formed (Block := list byte) Ok
              (fun _ => Ok toy.cipher)
              (Ok (fun i => bytes.of_Z (Z.of_nat i)))
              (Ok (fun i => bytes.of_Z (17 * Z.of_nat i))) _ eq_refl)
    as (Hlen & _ & Hwf).
  split; [exact Hlen|]. apply Hwf. cbn. lia.
Defined.

(** The round trip, for two addresses with the same text. *)
Lemma Validate_Generate_in_window (s : addressValidator.t) (now now' : Z)
    (a a' : Addr) (odcid : list byte) :
  aead_exact_overhead (addressValidator.aead s) ->
  aead_correct (addressValidator.aead s) ->
  validator_wf s ->
  0 <= now < 2 ^ 32 ->
  now <= now' <= now + addressValidator.validity ->
  addr_String a' = addr_String a ->
  exists token,
    addressValidator.Generate s now a odcid = Ret token
    /\ token <> []
    /\ addressValidator.Validate s now' a' token = Ret odcid.
Proof.
  intros Hov Hok Hwf Hnow Hwin Haddr.
  rewrite Generate_sealed by assumption.
  eexists. split; [reflexivity|]. split; [discriminate|].
  destruct Hwf as [Hsz Hn].
  assert (Hu : uint32 now = now) by (unfold uint32; apply Z.mod_small; lia).
  rewrite Hu.
  rewrite (Validate_unfold s now' a' _ _ now)
    by (reflexivity || exact Hn || (apply be32_Uint32; lia)).
  unfold addressValidator.validity in *.
  rewrite int64_small by (unfold is_int64; lia).
  destruct (Z.ltb_spec now (now' - 10)) as [?|_]; [lia|].
  destruct (Z.gtb_spec now now') as [?|_]; [lia|]. cbn [orb].
  rewrite Haddr, Hok by (rewrite length_token_nonce; auto).
  reflexivity.
Qed.

Lemma toy_open_length : aead_open_length toy.cipher.
Proof.
  intros n c ad p _. cbn. unfold toy.Open.
  destruct (Nat.ltb_spec (length c) 16) as [?|Hlen]; [discriminate|].
  cbv zeta. destruct (decide _); [|discriminate].
  intros [= <-]. rewrite length_take. lia.
Qed.

(** X7: a token made for an empty original DCID is answered invalid at
    any time and for any address: whatever the AEAD opens from it has no
    bytes, and the empty answer is the invalid one. So with address
    validation on, an Initial packet with an empty DCID is never let in. *)
Theorem X7_empty_odcid_never_validates (s : addressValidator.t) (now now' : Z)
    (a a' : Addr) (token : list byte) :
  aead_exact_overhead (addressValidator.aead s) ->
  aead_open_length (addressValidator.aead s) ->
  validator_wf s ->
  addressValidator.Generate s now a [] = Ret token ->
  addressValidator.Validate s now' a' token = Ret [].
Proof.
  intros Hov Hopenlen Hwf Hgen.
  rewrite Generate_sealed in Hgen by assumption.
  assert (Htok : token = be32 (uint32 now)
                         ++ aead_Seal (addressValidator.aead s)
                              (token_nonce s (be32 (uint32 now))) []
                              (bytes.of_string (addr_String a)))
    by congruence.
  rewrite Htok. clear Hgen Htok. destruct Hwf as [Hsz Hn].
  rewrite (Validate_unfold s now' a' _ _ (uint32 now))
    by (reflexivity || exact Hn || (apply be32_Uint32; apply uint32_range)).
  destruct (_ || _); [reflexivity|].
  destruct (aead_Open _ _ _ _) as [p|] eqn:Hopen; [|reflexivity].
  cbn [default]. f_equal.
  apply Hopenlen in Hopen; [|rewrite length_token_nonce; auto].
  rewrite Hov in Hopen by (rewrite length_token_nonce; auto).
  destruct p; [reflexivity|cbn in Hopen; lia].
Qed.

Lemma X7_empty_odcid_witness :
  exists token,
    addressValidator.Generate toy.validator 1700000000 toy.client1 []
      = Ret token
    /\ addressValidator.Validate toy.validator 1700000001 toy.client1 token
       = Ret [].
Proof.
  eexists. split; [vm_compute; reflexivity|].
  apply (X7_empty_odcid_never_validates toy.validator 1700000000 1700000001
           toy.client1 toy.client1).
  - exact toy_exact_overhead.
  - exact toy_open_length.
  - exact toy_validator_wf.
  - vm_compute. reflexivity.
Defined.

(** ** Address validation in the server *)

Lemma Server_newConn_engine `{E : transport.Engine} (e : env) (a : Addr)
    (id odcid : list byte) (c : remoteConn) :
  Server.newConn e a id odcid = Ok c ->
  transport.Accept (scid c) odcid = Ok (conn c) /\ rc_addr c = a.
Proof.
  unfold Server.newConn.
  destruct (if len id =? len zero_scid then _ else _) as [cid|]; [|discriminate].
  destruct (transport.Accept cid odcid) as [en|] eqn:Hacc; [|discriminate].
  intros [= <-]. cbn [scid conn rc_addr]. split; [exact Hacc|reflexivity].
Qed.

(** X8: with address validation on, an Initial packet without a token
    never creates state: the registry and the flags stay as they were, no
    connection routine is started and nothing is queued. At most one
    datagram is written, to the sender of the packet, and it is the Retry
    datagram the engine builds from the packet's CIDs, a fresh random CID
    and the token [Generate] made for the sender's address and the
    packet's DCID. *)
Theorem X8_retry_is_stateless `{E : transport.Engine} (e : env)
    (live : gset nat) (s s' : Server.t) (p : packet) (v : AddressValidator)
    (evs : list event) :
  Server.addrValid s = Some v ->
  transport.Token (header p) = [] ->
  Server.handleNewConn e live s p = Ret (s', evs) ->
  s' = s
  /\ count is_spawn evs = 0%nat
  /\ (count is_write evs <= 1)%nat
  /\ (forall b to, WriteTo b to ∈ evs ->
        to = addr p
        /\ exists newCID tok,
             rand_fill e zero_scid = Ok newCID
             /\ Generate v (env_now e) (addr p) (transport.DCID (header p))
                = Ret tok
             /\ transport.Retry (transport.SCID (header p)) newCID
                  (transport.DCID (header p)) tok = Ok b).
Proof.
  intros Hv Htok. unfold Server.handleNewConn, Server.retry.
  rewrite Hv, Htok. cbn [length Z.of_nat Z.eqb].
  destruct (rand_fill e zero_scid) as [newCID|].
  - destruct (Generate v _ _ _) as [tok|]; [|discriminate].
    cbn [go_bind snd]. cbn [set_Token transport.Token transport.SCID transport.DCID].
    destruct (transport.Retry _ _ _ _) as [b|] eqn:Hretry.
    + destruct (env_write e); intros [= <- <-].
      all: split; [reflexivity|]; split; [reflexivity|]; split; [cbn; lia|].
      all: intros b' to Hin; members Hin.
      all: match goal with H : WriteTo _ _ = WriteTo _ _ |- _ =>
             injection H as -> -> end.
      all: first [reflexivity | exists newCID, tok; auto].
    + intros [= <- <-]. split; [reflexivity|]. split; [reflexivity|].
      split; [cbn; lia|]. intros b' to Hin. members Hin.
  - cbn [go_bind snd]. intros [= <- <-].
    split; [reflexivity|]. split; [reflexivity|].
    split; [cbn; lia|]. intros b' to Hin. members Hin.
Qed.

Lemma first_retry_run :
  exists r, fixtures.first_retry = Ret r /\ count is_spawn r.2 = 0%nat.
Proof. eexists. split; [vm_compute; reflexivity|reflexivity]. Qed.

Lemma X8_retry_is_stateless_witness :
  exists evs,
    Server.handleNewConn toy_engine.world toy_engine.in_use
      fixtures.retry_server (toy_engine.decoded toy_engine.initial)
    = Ret (fixtures.retry_server, evs)
    /\ count is_spawn evs = 0%nat
    /\ (count is_write evs <= 1)%nat.
Proof.
  destruct first_retry_run as (r & Hr & _).
  exists (r.2 ++ [freePacket 7]).
  assert (Hrun : Server.handleNewConn toy_engine.world toy_engine.in_use
            fixtures.retry_server (toy_engine.decoded toy_engine.initial)
          = Ret (fixtures.retry_server, r.2 ++ [freePacket 7])).
  { unfold Server.handleNewConn.
    cbn [Server.addrValid fixtures.retry_server].
    replace (len (transport.Token
                    (header (toy_engine.decoded toy_engine.initial))) =? 0)
      with true by (vm_compute; reflexivity).
    change (Server.retry toy_engine.world toy_engine.in_use
              (simpleValidator toy.validator)
              (addr (toy_engine.decoded toy_engine.initial))
              (header (toy_engine.decoded toy_engine.initial)))
      with fixtures.first_retry.
    rewrite Hr. reflexivity. }
  split; [exact Hrun|].
  destruct (X8_retry_is_stateless toy_engine.world toy_engine.in_use
              fixtures.retry_server fixtures.retry_server
              (toy_engine.decoded toy_engine.initial)
              (simpleValidator toy.validator) (r.2 ++ [freePacket 7]))
    as (_ & Hspawn & Hwrite & _).
  - reflexivity.
  - vm_compute. reflexivity.
  - exact Hrun.
  - split; [exact Hspawn|exact Hwrite].
Defined.

(** X9: with address validation on, a connection is only ever created
    for a packet that carries a token which the validator, asked with the
    packet's sender address, turns into a non-empty original DCID; the
    engine of the new connection is the one [transport.Accept] gives for
    the connection's local CID and that original DCID, and the connection
    keeps the sender's address. *)
Theorem X9_connection_needs_valid_token `{E : transport.Engine} (e : env)
    (live : gset nat) (s s' : Server.t) (p : packet) (v : AddressValidator)
    (evs : list event) (c : remoteConn) :
  Server.addrValid s = Some v ->
  Server.handleNewConn e live s p = Ret (s', evs) ->
  handleConn c ∈ evs ->
  transport.Token (header p) <> []
  /\ exists odcid,
       odcid <> []
       /\ Validate v (env_now e) (addr p) (transport.Token (header p))
          = Ret odcid
       /\ transport.Accept (scid c) odcid = Ok (conn c)
       /\ rc_addr c = addr p.
Proof.
  intros Hv. unfold Server.handleNewConn, Server.verifyToken. rewrite Hv.
  destruct (len (transport.Token (header p)) =? 0) eqn:Htok.
  - destruct (Server.retry _ _ _ _ _) as [r|] eqn:Hr; [|discriminate].
    cbn [go_bind]. intros [= <- <-] Hc.
    apply elem_of_app in Hc as [Hc|Hc]; [|members Hc].
    exact (False_ind _ (retry_starts_nothing e live v _ _ r c Hr Hc)).
  - destruct (Validate v _ _ _) as [odcid|] eqn:Hval; [|discriminate].
    cbn [go_bind]. destruct (len odcid =? 0) eqn:Hod.
    + intros [= <- <-] Hc. members Hc.
    + unfold Server.enroll.
      destruct (Server.newConn _ _ _ _) as [c0|] eqn:Hnew.
      * destruct (Server_newConn_engine e _ _ _ c0 Hnew) as [Hacc Haddr].
        assert (Hne : transport.Token (header p) <> []).
        { intros Hnil. apply len_nil_iff in Hnil. congruence. }
        assert (Hne' : odcid <> []).
        { intros Hnil. apply len_nil_iff in Hnil. congruence. }
        destruct (closing _); [intros [= <- <-] Hc; members Hc|].
        destruct (peers _ !! _); intros [= <- <-] Hc; members Hc.
        match goal with H : handleConn c = handleConn c0 |- _ =>
          injection H as -> end.
        exists odcid. auto.
      * intros [= <- <-] Hc. members Hc.
Qed.

(** The connection made for [fixtures.second_initial]. *)
Lemma second_initial_run :
  let c := {| scid := toy_engine.cid_d; rc_addr := toy.client1;
              conn := transport.accepting toy_engine.cid_d toy_engine.cid_d |} in
  Server.handleNewConn fixtures.later toy_engine.in_use fixtures.retry_server
    fixtures.second_initial
  = Ret (Server.set_lc fixtures.retry_server
           (set_peers toy_engine.idle {[ toy_engine.cid_d := c ]}),
         [Lock; Unlock; Log LevelDebug "%s new connection scid=%x odcid=%x";
          recvCh_send c fixtures.second_initial; handleConn c]).
Proof.
  intros c.
  rewrite (handleNewConn_accepted fixtures.later toy_engine.in_use
             fixtures.retry_server fixtures.second_initial toy_engine.cid_d).
  - unfold Server.enroll.
    replace (Server.newConn fixtures.later (addr fixtures.second_initial)
               (transport.DCID (header fixtures.second_initial))
               toy_engine.cid_d) with (Ok c) by (vm_compute; reflexivity).
    cbn [Server.lc fixtures.retry_server toy_engine.idle closing peers].
    rewrite lookup_empty. rewrite insert_empty. reflexivity.
  - unfold token_accepted. cbn [Server.addrValid fixtures.retry_server].
    split; [vm_compute; discriminate|].
    split; [vm_compute; reflexivity|vm_compute; discriminate].
Qed.

Lemma X9_connection_needs_valid_token_witness :
  let c := {| scid := toy_engine.cid_d; rc_addr := toy.client1;
              conn := transport.accepting toy_engine.cid_d toy_engine.cid_d |} in
  transport.Token (header fixtures.second_initial) <> []
  /\ exists odcid,
       odcid <> []
       /\ Validate (simpleValidator toy.validator) (env_now fixtures.later)
            (addr fixtures.second_initial)
            (transport.Token (header fixtures.second_initial)) = Ret odcid
       /\ transport.Accept (scid c) odcid = Ok (conn c)
       /\ rc_addr c = addr fixtures.second_initial.
Proof.
  intros c.
  eapply (X9_connection_needs_valid_token fixtures.later toy_engine.in_use
            fixtures.retry_server _ fixtures.second_initial
            (simpleValidator toy.validator) _ c).
  - reflexivity.
  - exact second_initial_run.
  - do 4 apply list_elem_of_further. apply list_elem_of_here.
Defined.

(** X10: the retry exchange end to end. When [retry] has answered an
    Initial packet with a token, and within ten seconds (and before the
    32-bit stamp wraps) a packet arrives from an address with the same
    text carrying that token, [handleNewConn] lets it through to the
    creation of the connection, and the original DCID handed to the engine
    is the DCID of the first packet. *)
Theorem X10_retry_then_token_is_let_in `{E : transport.Engine}
    (v : addressValidator.t) (e1 e2 : env) (live1 live2 : gset nat)
    (s : Server.t) (a : Addr) (h1 : transport.Header)
    (r1 : transport.Header * list event) (p2 : packet) :
  Server.addrValid s = Some (simpleValidator v) ->
  aead_exact_overhead (addressValidator.aead v) ->
  aead_correct (addressValidator.aead v) ->
  validator_wf v ->
  transport.DCID h1 <> [] ->
  env_rand e1 <> None ->
  0 <= env_now e1 < 2 ^ 32 ->
  env_now e1 <= env_now e2 <= env_now e1 + 10 ->
  Server.retry e1 live1 (simpleValidator v) a h1 = Ret r1 ->
  addr_String (addr p2) = addr_String a ->
  transport.Token (header p2) = transport.Token r1.1 ->
  Server.handleNewConn e2 live2 s p2
  = Ret (Server.enroll e2 s p2 (transport.DCID h1)).
Proof.
  intros Hv Hov Hok Hwf Hd Hrand Hnow Hwin Hretry Haddr Htok.
  destruct (Validate_Generate_in_window v (env_now e1) (env_now e2) a (addr p2)
              (transport.DCID h1) Hov Hok Hwf Hnow Hwin Haddr)
    as (tok & Hgen & Hne & Hval).
  assert (Hr1 : transport.Token r1.1 = tok).
  { revert Hretry. unfold Server.retry, rand_fill.
    destruct (env_rand e1) as [f|]; [|contradiction].
    cbn [Generate simpleValidator]. rewrite Hgen. cbn [go_bind].
    intros [= <-]. reflexivity. }
  apply handleNewConn_accepted. unfold token_accepted. rewrite Hv.
  rewrite Htok, Hr1. cbn [Validate simpleValidator].
  split; [exact Hne|]. split; [exact Hval|exact Hd].
Qed.

Lemma X10_retry_then_token_witness :
  Server.handleNewConn fixtures.later toy_engine.in_use fixtures.retry_server
    fixtures.second_initial
  = Ret (Server.enroll fixtures.later fixtures.retry_server
           fixtures.second_initial toy_engine.cid_d).
Proof.
  eapply (X10_retry_then_token_is_let_in toy.validator toy_engine.world
            fixtures.later toy_engine.in_use toy_engine.in_use
            fixtures.retry_server toy.client1
            (header (toy_engine.decoded toy_engine.initial)) _
            fixtures.second_initial).
  - reflexivity.
  - exact toy_exact_overhead.
  - exact toy_correct.
  - exact toy_validator_wf.
  - vm_compute. discriminate.
  - vm_compute. discriminate.
  - cbn [env_now toy_engine.world]. lia.
  - cbn [env_now toy_engine.world fixtures.later]. lia.
  - vm_compute. reflexivity.
  - vm_compute. reflexivity.
  - vm_compute. reflexivity.
Defined.

(** ** Closing, routing, and what [Connect] leaves behind *)

(** X11: once the closing flag is set, no new work is taken on. A
    datagram delivered to the server is released without any reply and
    without starting anything; an admission routine that reaches the lock
    creates no connection and queues nothing; [Connect] returns an error
    without sending. In all three the registry and the flag stay as they
    were. *)
Theorem X11_closing_refuses_new_work `{E : transport.Engine} :
  (forall (e : env) (live : gset nat) (s s' : Server.t) (p : packet)
          (evs : list event),
     closing (Server.lc s) = true ->
     Server.deliver e live s p = Ret (s', evs) ->
     s' = s /\ count is_spawn evs = 0%nat /\ count is_write evs = 0%nat
     /\ count (is_free (ptr p)) evs = 1%nat)
  /\ (forall (e : env) (live : gset nat) (s s' : Server.t) (p : packet)
             (evs : list event),
        closing (Server.lc s) = true ->
        Server.handleNewConn e live s p = Ret (s', evs) ->
        s' = s /\ count is_spawn evs = 0%nat)
  /\ (forall (e : env) (live : gset nat) (s s' : Client.t) (a : string)
             (evs : list event) (r : option error),
        closing s = true ->
        Client.Connect e live s a = (s', evs, r) ->
        s' = s /\ r <> None /\ forall c, sendConn c ∉ evs).
Proof.
  split; [|split].
  - intros e live s s' p evs Hcl.
    assert (Hrecv : exists logs,
              Server.recv e live s p = logs ++ [freePacket (ptr p)]
              /\ count is_spawn logs = 0%nat /\ count is_write logs = 0%nat
              /\ count (is_free (ptr p)) logs = 0%nat).
    { unfold Server.recv. rewrite Hcl.
      destruct (transport.Decode _ _) as [h|].
      - exists [Log LevelDebug "%s received packet %s"; RLock; RUnlock]. auto.
      - exists [Log LevelDebug "%s could not decode packet: %v"]. auto. }
    destruct Hrecv as (logs & Hrecv & Hspawn & Hwrite & Hfree).
    unfold Server.deliver. rewrite Hrecv, last_snoc.
    intros [= <- <-]. rewrite !count_app, Hspawn, Hwrite, Hfree.
    cbn [count is_spawn is_write is_free]. rewrite Nat.eqb_refl. auto.
  - intros e live s s' p evs Hcl.
    assert (Henroll : forall odcid,
              Server.enroll e s p odcid = (s', evs) ->
              s' = s /\ count is_spawn evs = 0%nat).
    { intros odcid. unfold Server.enroll. rewrite Hcl.
      destruct (Server.newConn _ _ _ _); intros [= <- <-]; auto. }
    unfold Server.handleNewConn.
    destruct (Server.addrValid s) as [v|]; [|intros [= H]; eauto].
    destruct (len (transport.Token (header p)) =? 0).
    + unfold Server.retry.
      destruct (rand_fill e zero_scid) as [newCID|].
      * destruct (Generate v _ _ _) as [tok|]; [|discriminate].
        cbn [go_bind snd].
        destruct (transport.Retry _ _ _ _); [destruct (env_write e)|];
          intros [= <- <-]; auto.
      * cbn [go_bind snd]. intros [= <- <-]. auto.
    + destruct (Server.verifyToken _ _ _ _) as [odcid|]; [|discriminate].
      cbn [go_bind]. destruct (len odcid =? 0).
      * intros [= <- <-]. auto.
      * intros [= H]. eauto.
  - intros e live s s' a evs r Hcl. unfold Client.Connect. rewrite Hcl.
    destruct (Client.newConn e a) as [c|]; intros [= <- <- <-];
      (split; [reflexivity|]); (split; [discriminate|]);
      intros c' Hin; members Hin.
Qed.

Lemma X11_closing_witness :
  Server.deliver toy_engine.world toy_engine.in_use fixtures.closing_server
    toy_engine.initial
  = Ret (fixtures.closing_server,
         [Log LevelDebug "%s received packet %s"; RLock; RUnlock; freePacket 7])
  /\ fixtures.closing_server = fixtures.closing_server
  /\ count is_spawn
       [Log LevelDebug "%s received packet %s"; RLock; RUnlock; freePacket 7]
     = 0%nat.
Proof.
  assert (Hrun : Server.deliver toy_engine.world toy_engine.in_use
            fixtures.closing_server toy_engine.initial
          = Ret (fixtures.closing_server,
                 [Log LevelDebug "%s received packet %s"; RLock; RUnlock;
                  freePacket 7])) by (vm_compute; reflexivity).
  split; [exact Hrun|].
  destruct (proj1 X11_closing_refuses_new_work toy_engine.world
              toy_engine.in_use fixtures.closing_server _ toy_engine.initial
              _ eq_refl Hrun) as (Hs & Hspawn & _).
  split; [exact Hs|exact Hspawn].
Defined.

Lemma handleNewConn_started_open `{E : transport.Engine} (e : env)
    (live : gset nat) (s s' : Server.t) (p : packet) (evs : list event)
    (c : remoteConn) :
  Server.handleNewConn e live s p = Ret (s', evs) ->
  handleConn c ∈ evs ->
  closing (Server.lc s') = false.
Proof.
  assert (Henroll : forall odcid,
    Server.enroll e s p odcid = (s', evs) -> handleConn c ∈ evs ->
    closing (Server.lc s') = false).
  { intros odcid. unfold Server.enroll.
    destruct (Server.newConn _ _ _ _) as [c0|];
      [|intros [= <- <-] Hc; members Hc].
    destruct (closing (Server.lc s)) eqn:Hcl;
      [intros [= <- <-] Hc; members Hc|].
    destruct (peers _ !! _); intros [= <- <-] Hc; members Hc. }
  unfold Server.handleNewConn.
  destruct (Server.addrValid s) as [v|]; [|intros [= H]; eauto].
  destruct (len (transport.Token (header p)) =? 0).
  - destruct (Server.retry _ _ _ _ _) as [r|] eqn:Hr; [|discriminate].
    cbn [go_bind]. intros [= <- <-] Hc.
    apply elem_of_app in Hc as [Hc|Hc]; [|members Hc].
    exact (False_ind _ (retry_starts_nothing e live v _ _ r c Hr Hc)).
  - destruct (Server.verifyToken _ _ _ _) as [odcid|]; [|discriminate].
    cbn [go_bind]. destruct (len odcid =? 0).
    + intros [= <- <-] Hc. members Hc.
    + intros [= H]. eauto.
Qed.

(** X12: registration and routing fit together. After [handleNewConn] has
    created a connection, every later datagram whose header decodes to
    that connection's local CID as DCID is queued on that connection by
    [recv], whatever its type, version, length and sender: the checks on
    Initial packets do not apply to a known connection. *)
Theorem X12_created_connection_gets_its_packets `{E : transport.Engine}
    (e e' : env) (live live' : gset nat) (s s' : Server.t) (p p' : packet)
    (evs : list event) (c : remoteConn) (h' : transport.Header) :
  Server.handleNewConn e live s p = Ret (s', evs) ->
  handleConn c ∈ evs ->
  transport.Decode (data p') transport.MaxCIDLength = Ok h' ->
  transport.DCID h' = scid c ->
  Server.recv e' live' s' p'
  = [Log LevelDebug "%s received packet %s"; RLock; RUnlock;
     recvCh_send c (set_header p' h')].
Proof.
  intros Hrun Hc Hdec Hdcid.
  destruct (handleNewConn_started e live s s' p evs c Hrun Hc)
    as (odcid & _ & _ & Hreg).
  pose proof (handleNewConn_started_open e live s s' p evs c Hrun Hc) as Hopen.
  unfold Server.recv. rewrite Hdec, Hopen.
  cbn [set_header header]. rewrite Hdcid, Hreg. reflexivity.
Qed.

Lemma X12_created_connection_witness :
  Server.recv fixtures.later toy_engine.in_use toy_engine.enrolled
    fixtures.follow_up
  = [Log LevelDebug "%s received packet %s"; RLock; RUnlock;
     recvCh_send toy_engine.first_conn
       (toy_engine.decoded fixtures.follow_up)].
Proof.
  apply (X12_created_connection_gets_its_packets toy_engine.world
           fixtures.later toy_engine.in_use toy_engine.in_use
           toy_engine.server toy_engine.enrolled
           (toy_engine.decoded toy_engine.initial) fixtures.follow_up
           [Lock; Unlock;
            Log LevelDebug "%s new connection scid=%x odcid=%x";
            recvCh_send toy_engine.first_conn
              (toy_engine.decoded toy_engine.initial);
            handleConn toy_engine.first_conn]
           toy_engine.first_conn
           (header (toy_engine.decoded fixtures.follow_up))).
  - unfold Server.handleNewConn, Server.enroll.
    cbn [Server.addrValid toy_engine.server].
    replace (Server.newConn toy_engine.world
               (addr (toy_engine.decoded toy_engine.initial))
               (transport.DCID (header (toy_engine.decoded toy_engine.initial)))
               []) with (Ok toy_engine.first_conn) by (vm_compute; reflexivity).
    cbn [Server.lc toy_engine.server toy_engine.idle closing peers].
    rewrite lookup_empty. rewrite insert_empty. reflexivity.
  - do 4 apply list_elem_of_further. apply list_elem_of_here.
  - vm_compute. reflexivity.
  - vm_compute. reflexivity.
Defined.

Lemma Client_newConn_scid `{E : transport.Engine} (e : env) (a : string)
    (c : remoteConn) :
  Client.newConn e a = Ok c ->
  len (scid c) = transport.MaxCIDLength
  /\ transport.Connect (scid c) = Ok (conn c)
  /\ env_resolve e a = Ok (rc_addr c)
  /\ exists f, env_rand e = Some f
               /\ scid c = f <$> seq 0 (Z.to_nat transport.MaxCIDLength).
Proof.
  unfold Client.newConn, rand_fill.
  destruct (env_resolve e a) as [udp|]; [|discriminate].
  destruct (env_rand e) as [f|]; [|discriminate].
  destruct (transport.Connect _) as [en|] eqn:Hc; [|discriminate].
  intros [= <-]. cbn [scid conn rc_addr].
  split; [reflexivity|].
  split; [exact Hc|]. split; [reflexivity|]. exists f. split; reflexivity.
Qed.

(** X13: [Connect] is all or nothing. When it returns an error, whichever
    (the address does not resolve, the random source or the engine fails,
    the client is closing, the CID collides, the send fails), the client
    is exactly as it was before the call and no connection routine was
    started. When it returns nil, one connection with a local CID of 20
    random bytes was registered under a key that was free, its first
    datagram was sent once and its routine was started. *)
Theorem X13_Connect_all_or_nothing `{E : transport.Engine} (e : env)
    (live : gset nat) (s s' : Client.t) (a : string) (evs : list event)
    (r : option error) :
  Client.Connect e live s a = (s', evs, r) ->
  (r <> None -> s' = s /\ forall c, go_handleConn c ∉ evs)
  /\ (r = None ->
      exists c,
        Client.newConn e a = Ok c
        /\ len (scid c) = transport.MaxCIDLength
        /\ peers s !! scid c = None
        /\ s' = set_peers s (<[scid c := c]> (peers s))
        /\ evs = [Lock; Unlock; newPacket (pool_get live); sendConn c;
                  go_handleConn c; freePacket (pool_get live)]).
Proof.
  unfold Client.Connect.
  destruct (Client.newConn e a) as [c|] eqn:Hnew.
  - destruct (Client_newConn_scid e a c Hnew) as (Hlen & _).
    destruct (closing s) eqn:Hcl.
    + intros [= <- <- <-]. split; [|discriminate].
      intros _. split; [reflexivity|]. intros c' Hin. members Hin.
    + destruct (peers s !! scid c) eqn:Hk.
      * intros [= <- <- <-]. split; [|discriminate].
        intros _. split; [reflexivity|]. intros c' Hin. members Hin.
      * destruct (env_send e).
        -- intros [= <- <- <-]. split; [|discriminate].
           intros _. split.
           ++ cbn [peers set_peers closing].
              rewrite delete_insert_id by exact Hk.
              destruct s as [cl ps]. cbn in *. rewrite Hcl. reflexivity.
           ++ intros c' Hin. members Hin.
        -- intros [= <- <- <-]. split; [intros H; contradiction|].
           intros _. exists c. auto.
  - intros [= <- <- <-]. split; [|discriminate].
    intros _. split; [reflexivity|]. intros c' Hin. members Hin.
Qed.

Lemma X13_Connect_all_or_nothing_witness :
  Client.Connect toy_engine.send_fails toy_engine.in_use toy_engine.idle
    "192.0.2.9:4433"
  = (toy_engine.idle,
     [Lock; Unlock; newPacket (pool_get toy_engine.in_use);
      sendConn {| scid := toy_engine.random_cid;
                  rc_addr := {| addr_Network := "udp";
                                addr_String := "192.0.2.9:4433" |};
                  conn := transport.connecting toy_engine.random_cid |};
      Lock; Unlock; freePacket (pool_get toy_engine.in_use)],
     Some (ErrSend {| addr_Network := "udp"; addr_String := "192.0.2.9:4433" |}
             (ErrExternal "network is unreachable")))
  /\ toy_engine.idle = toy_engine.idle.
Proof.
  assert (Hrun : Client.Connect toy_engine.send_fails toy_engine.in_use
            toy_engine.idle "192.0.2.9:4433"
    = (toy_engine.idle,
       [Lock; Unlock; newPacket (pool_get toy_engine.in_use);
        sendConn {| scid := toy_engine.random_cid;
                    rc_addr := {| addr_Network := "udp";
                                  addr_String := "192.0.2.9:4433" |};
                    conn := transport.connecting toy_engine.random_cid |};
        Lock; Unlock; freePacket (pool_get toy_engine.in_use)],
       Some (ErrSend {| addr_Network := "udp";
                        addr_String := "192.0.2.9:4433" |}
               (ErrExternal "network is unreachable")))).
  { unfold Client.Connect.
    replace (Client.newConn toy_engine.send_fails "192.0.2.9:4433")
      with (Ok {| scid := toy_engine.random_cid;
                  rc_addr := {| addr_Network := "udp";
                                addr_String := "192.0.2.9:4433" |};
                  conn := transport.connecting toy_engine.random_cid |})
      by (vm_compute; reflexivity).
    cbn [closing peers toy_engine.idle scid set_peers].
    rewrite lookup_empty. cbn [env_send toy_engine.send_fails rc_addr].
    rewrite delete_insert_id by apply lookup_empty. reflexivity. }
  split; [exact Hrun|].
  apply (proj1 (X13_Connect_all_or_nothing _ _ _ _ _ _ _ Hrun)).
  discriminate.
Defined.

(** X14: a connection made by [Connect] gets its packets. After a
    [Connect] that returned nil, every datagram whose header decodes to
    the new connection's local CID as DCID is queued on that connection by
    the client's [recv]. *)
Theorem X14_connected_gets_its_packets `{E : transport.Engine} (e : env)
    (live : gset nat) (s s' : Client.t) (a : string) (evs : list event)
    (c : remoteConn) (p' : packet) (h' : transport.Header) :
  Client.Connect e live s a = (s', evs, None) ->
  go_handleConn c ∈ evs ->
  transport.Decode (data p') transport.MaxCIDLength = Ok h' ->
  transport.DCID h' = scid c ->
  Client.recv s' p'
  = [Log LevelDebug "%s received packet %s"; RLock; RUnlock;
     recvCh_send c (set_header p' h')].
Proof.
  unfold Client.Connect.
  destruct (Client.newConn e a) as [c0|]; [|discriminate].
  destruct (closing s) eqn:Hcl; [discriminate|].
  destruct (peers s !! scid c0) eqn:Hk; [discriminate|].
  destruct (env_send e); [discriminate|].
  intros [= <- <-] Hc Hdec Hdcid. members Hc.
  match goal with H : go_handleConn c = go_handleConn c0 |- _ =>
    injection H as -> end.
  unfold Client.recv. rewrite Hdec. cbn [closing set_peers peers set_header header].
  rewrite Hcl, Hdcid, lookup_insert_eq. reflexivity.
Qed.

(** X15: [Connect] leaves the packet pool as it found it: on every path
    the scratch buffer it takes is one nobody holds, it is released
    exactly once before [Connect] returns, and nothing else is released. *)
Theorem X15_Connect_returns_its_buffer `{E : transport.Engine} (e : env)
    (live : gset nat) (s s' : Client.t) (a : string) (evs : list event)
    (r : option error) :
  Client.Connect e live s a = (s', evs, r) ->
  pool_run evs live = Some live.
Proof.
  assert (Hfresh : pool_get live ∉ live) by apply is_fresh.
  assert (Hback : ({[ pool_get live ]} ∪ live) ∖ {[ pool_get live ]} = live)
    by set_solver.
  unfold Client.Connect.
  destruct (Client.newConn e a) as [c|]; [|intros [= _ <- _]; reflexivity].
  destruct (closing s); [intros [= _ <- _]; reflexivity|].
  destruct (peers s !! scid c); [intros [= _ <- _]; reflexivity|].
  destruct (env_send e); intros [= _ <- _]; cbn [pool_run];
    rewrite decide_False by exact Hfresh;
    rewrite decide_True by set_solver; rewrite Hback; reflexivity.
Qed.

(** A [Connect] that goes through, on the toy engine. *)
Lemma connect_run :
  let c := {| scid := toy_engine.random_cid;
              rc_addr := {| addr_Network := "udp";
                            addr_String := "192.0.2.9:4433" |};
              conn := transport.connecting toy_engine.random_cid |} in
  Client.Connect toy_engine.world toy_engine.in_use toy_engine.idle
    "192.0.2.9:4433"
  = (set_peers toy_engine.idle {[ toy_engine.random_cid := c ]},
     [Lock; Unlock; newPacket (pool_get toy_engine.in_use); sendConn c;
      go_handleConn c; freePacket (pool_get toy_engine.in_use)],
     None).
Proof.
  intros c. unfold Client.Connect.
  replace (Client.newConn toy_engine.world "192.0.2.9:4433")
    with (Ok c) by (vm_compute; reflexivity).
  cbn [closing peers toy_engine.idle].
  replace (scid c) with toy_engine.random_cid by reflexivity.
  rewrite lookup_empty. cbn [env_send toy_engine.world].
  rewrite insert_empty. reflexivity.
Qed.

Lemma X14_connected_gets_its_packets_witness :
  let c := {| scid := toy_engine.random_cid;
              rc_addr := {| addr_Network := "udp";
                            addr_String := "192.0.2.9:4433" |};
              conn := transport.connecting toy_engine.random_cid |} in
  Client.recv (set_peers toy_engine.idle {[ toy_engine.random_cid := c ]})
    fixtures.reply
  = [Log LevelDebug "%s received packet %s"; RLock; RUnlock;
     recvCh_send c
       (set_header fixtures.reply
          (header (toy_engine.decoded fixtures.reply)))].
Proof.
  intros c.
  apply (X14_connected_gets_its_packets toy_engine.world toy_engine.in_use
           toy_engine.idle _ "192.0.2.9:4433" _ c fixtures.reply
           (header (toy_engine.decoded fixtures.reply)) connect_run).
  - do 4 apply list_elem_of_further. apply list_elem_of_here.
  - vm_compute. reflexivity.
  - vm_compute. reflexivity.
Defined.

Lemma X15_Connect_returns_its_buffer_witness :
  pool_run
    [Lock; Unlock; newPacket (pool_get toy_engine.in_use);
     sendConn {| scid := toy_engine.random_cid;
                 rc_addr := {| addr_Network := "udp";
                               addr_String := "192.0.2.9:4433" |};
                 conn := transport.connecting toy_engine.random_cid |};
     go_handleConn {| scid := toy_engine.random_cid;
                      rc_addr := {| addr_Network := "udp";
                                    addr_String := "192.0.2.9:4433" |};
                      conn := transport.connecting toy_engine.random_cid |};
     freePacket (pool_get toy_engine.in_use)]
    toy_engine.in_use
  = Some toy_engine.in_use.
Proof.
  exact (X15_Connect_returns_its_buffer toy_engine.world toy_engine.in_use
           toy_engine.idle _ "192.0.2.9:4433" _ None connect_run).
Defined.

(** ** The packet pool along the server's and the client's paths *)


Lemma pool_run_app (xs ys : list event) (live : gset nat) :
  pool_run (xs ++ ys) live
  = match pool_run xs live with
    | Some live' => pool_run ys live'
    | None => None
    end.
Proof.
  revert live. induction xs as [|ev xs IH]; intros live; [reflexivity|].
  cbn [app pool_run]. destruct ev; try apply IH.
  - destruct (decide _); [reflexivity|apply IH].
  - destruct (decide _); [apply IH|reflexivity].
Qed.


Section pool_paths.
Context `{E : transport.Engine}.

Lemma scratch_cycle (live : gset nat) (mid : list event) :
  pool_run mid ({[ pool_get live ]} ∪ live) = Some ({[ pool_get live ]} ∪ live) ->
  pool_run ([newPacket (pool_get live)] ++ mid ++ [freePacket (pool_get live)])
    live = Some live.
Proof.
  intros Hmid.
  assert (Hfresh : pool_get live ∉ live) by apply is_fresh.
  cbn [app pool_run]. rewrite decide_False by exact Hfresh.
  rewrite pool_run_app, Hmid. cbn [pool_run].
  rewrite decide_True by set_solver. f_equal. set_solver.
Qed.

Lemma negotiate_pool (e : env) (live : gset nat) (a : Addr)
    (h : transport.Header) :
  pool_run (Server.negotiate e live a h) live = Some live.
Proof.
  unfold Server.negotiate. cbv zeta. apply scratch_cycle.
  destruct (transport.NegotiateVersion _ _); [destruct (env_write e)|];
    reflexivity.
Qed.

Lemma retry_pool (e : env) (live : gset nat) (v : AddressValidator)
    (a : Addr) (h : transport.Header) (r : transport.Header * list event) :
  Server.retry e live v a h = Ret r -> pool_run r.2 live = Some live.
Proof.
  unfold Server.retry.
  destruct (rand_fill e zero_scid) as [newCID|].
  - destruct (Generate v _ _ _) as [tok|]; [|discriminate].
    cbn [go_bind]. intros [= <-]. cbn [snd]. apply scratch_cycle.
    destruct (transport.Retry _ _ _ _); [destruct (env_write e)|];
      reflexivity.
  - intros [= <-]. cbn [snd].
    apply (scratch_cycle live [Log LevelError "%s retry: %s %v"]).
    reflexivity.
Qed.

Lemma settled_by_release (k : nat) (logs : list event) (live : gset nat) :
  k ∈ live ->
  pool_run logs live = Some live ->
  buffer_settled k (logs ++ [freePacket k]) live.
Proof.
  intros Hk Hlogs. left. rewrite pool_run_app, Hlogs. cbn [pool_run].
  rewrite decide_True by exact Hk. reflexivity.
Qed.

Lemma enroll_pool (e : env) (s : Server.t) (p : packet) (odcid : list byte)
    (live : gset nat) :
  ptr p ∈ live ->
  buffer_settled (ptr p) (Server.enroll e s p odcid).2 live.
Proof.
  intros Hk. unfold Server.enroll.
  destruct (Server.newConn _ _ _ _) as [c|].
  - destruct (closing _).
    + apply (settled_by_release _ [Lock; Unlock] _ Hk). reflexivity.
    + destruct (peers _ !! _).
      * apply (settled_by_release _
                 [Lock; Unlock;
                  Log LevelError "%s connection id conflict scid=%x"] _ Hk).
        reflexivity.
      * right. cbn. rewrite Nat.eqb_refl. split; [reflexivity|lia].
  - apply (settled_by_release _ [Log LevelError "%s create connection: %v"]
             _ Hk). reflexivity.
Qed.

Lemma handleNewConn_pool (e : env) (live : gset nat) (s s' : Server.t)
    (p : packet) (evs : list event) :
  ptr p ∈ live ->
  Server.handleNewConn e live s p = Ret (s', evs) ->
  buffer_settled (ptr p) evs live.
Proof.
  intros Hk. unfold Server.handleNewConn.
  destruct (Server.addrValid s) as [v|].
  - destruct (len (transport.Token (header p)) =? 0).
    + destruct (Server.retry _ _ _ _ _) as [r|] eqn:Hr; [|discriminate].
      cbn [go_bind]. intros [= _ <-].
      apply (settled_by_release _ _ _ Hk). exact (retry_pool _ _ _ _ _ _ Hr).
    + destruct (Server.verifyToken _ _ _ _) as [odcid|]; [|discriminate].
      cbn [go_bind]. destruct (len odcid =? 0).
      * intros [= _ <-].
        apply (settled_by_release _
                 [Log LevelInfo "%s invalid retry token: %v"] _ Hk).
        reflexivity.
      * intros [= H]. pose proof (enroll_pool e s p odcid live Hk) as Hp.
        rewrite H in Hp. exact Hp.
  - intros [= H]. pose proof (enroll_pool e s p [] live Hk) as Hp.
    rewrite H in Hp. exact Hp.
Qed.
End pool_paths.

Section pool_loops.
Context `{E : transport.Engine}.

Lemma settled_after (k : nat) (pre evs : list event) (live : gset nat) :
  pool_run pre live = Some live ->
  buffer_settled k evs live ->
  buffer_settled k (pre ++ evs) live.
Proof.
  intros Hpre [Hfree|[Hsame Hq]].
  - left. rewrite pool_run_app, Hpre. exact Hfree.
  - right. rewrite pool_run_app, Hpre, count_app. split; [exact Hsame|lia].
Qed.

Lemma deliver_pool (e : env) (live : gset nat) (s s' : Server.t) (p : packet)
    (evs : list event) :
  ptr p ∈ live ->
  Server.deliver e live s p = Ret (s', evs) ->
  buffer_settled (ptr p) evs live.
Proof.
  intros Hk. unfold Server.deliver, Server.recv.
  destruct (transport.Decode _ _) as [h|].
  2:{ change [Log LevelDebug "%s could not decode packet: %v"; freePacket (ptr p)]
        with ([Log LevelDebug "%s could not decode packet: %v"]
              ++ [freePacket (ptr p)]).
      rewrite last_snoc. intros [= _ <-].
      apply (settled_by_release (ptr p)
               [Log LevelDebug "%s could not decode packet: %v"] live Hk).
      reflexivity. }
  cbn [set_header header data ptr addr].
  destruct (closing _).
  { change ([Log LevelDebug "%s received packet %s"; RLock]
            ++ [RUnlock; freePacket (ptr p)])
      with ([Log LevelDebug "%s received packet %s"; RLock; RUnlock]
            ++ [freePacket (ptr p)]).
    rewrite last_snoc. intros [= _ <-].
    apply (settled_by_release (ptr p)
             [Log LevelDebug "%s received packet %s"; RLock; RUnlock] live Hk).
    reflexivity. }
  destruct (peers _ !! _) as [c|].
  { change ([Log LevelDebug "%s received packet %s"; RLock]
            ++ [RUnlock; recvCh_send c (set_header p h)])
      with ([Log LevelDebug "%s received packet %s"; RLock; RUnlock]
            ++ [recvCh_send c (set_header p h)]).
    rewrite last_snoc. intros [= _ <-]. right.
    cbn. rewrite Nat.eqb_refl. split; [reflexivity|lia]. }
  destruct (negb _ || _).
  { change ([Log LevelDebug "%s received packet %s"; RLock]
            ++ [RUnlock]
            ++ [Log LevelDebug "%s dropped invalid initial packet: %s";
                freePacket (ptr p)])
      with ([Log LevelDebug "%s received packet %s"; RLock; RUnlock;
             Log LevelDebug "%s dropped invalid initial packet: %s"]
            ++ [freePacket (ptr p)]).
    rewrite last_snoc. intros [= _ <-].
    apply (settled_by_release (ptr p)
             [Log LevelDebug "%s received packet %s"; RLock; RUnlock;
              Log LevelDebug "%s dropped invalid initial packet: %s"] live Hk).
    reflexivity. }
  destruct (negb _).
  - pose proof (negotiate_pool e live (addr p) h) as Hneg.
    set (neg := Server.negotiate e live (addr p) h) in *. clearbody neg.
    rewrite !app_assoc, last_snoc. intros [= _ <-].
    apply (settled_by_release (ptr p)
             ([Log LevelDebug "%s received packet %s"; RLock; RUnlock] ++ neg)
             live Hk).
    rewrite pool_run_app. cbn [app pool_run]. exact Hneg.
  - rewrite !app_assoc, last_snoc.
    destruct (Server.handleNewConn _ _ _ _) as [[s1 evs1]|] eqn:Hrun;
      [|discriminate].
    cbn [go_bind fst snd]. intros [= _ <-].
    apply (settled_after (ptr p)
             [Log LevelDebug "%s received packet %s"; RLock; RUnlock;
              go_handleNewConn (set_header p h)] evs1 live); [reflexivity|].
    exact (handleNewConn_pool e live s s1 (set_header p h) evs1 Hk Hrun).
Qed.




End pool_loops.

(** ** The serving loops *)


(** X17: one datagram through the server ([recv] and the admission it
    starts): the pool is used correctly along the events, and the buffer
    of the datagram is either released exactly once and not queued, or
    queued exactly once and not released, provided it was held when the
    datagram came in. *)
Theorem X17_deliver_settles_the_buffer `{E : transport.Engine} (e : env)
    (live : gset nat) (s s' : Server.t) (p : packet) (evs : list event) :
  ptr p ∈ live ->
  Server.deliver e live s p = Ret (s', evs) ->
  (pool_run evs live = Some (live ∖ {[ ptr p ]})
   /\ count (is_free (ptr p)) evs = 1%nat
   /\ count (is_queued (ptr p)) evs = 0%nat)
  \/ (pool_run evs live = Some live
      /\ count (is_free (ptr p)) evs = 0%nat
      /\ count (is_queued (ptr p)) evs = 1%nat).
Proof.
  intros Hk Hrun.
  pose proof (Server_deliver_release_or_queue e live s s' p evs Hk Hrun) as Hone.
  destruct (deliver_pool e live s s' p evs Hk Hrun) as [Hfree|[Hsame Hq]].
  - left. split; [exact Hfree|].
    destruct (Nat.eq_dec (count (is_queued (ptr p)) evs) 0%nat) as [Hz|Hnz];
      [lia|exfalso].
    assert (Hnofree : count (is_free (ptr p)) evs = 0%nat) by lia.
    clear Hone Hnz.
    assert (Hkeeps : forall evs0 live0, ptr p ∈ live0 ->
              count (is_free (ptr p)) evs0 = 0%nat ->
              forall live1, pool_run evs0 live0 = Some live1 -> ptr p ∈ live1).
    { induction evs0 as [|ev evs0 IH]; intros live0 Hin Hcount live1;
        cbn [pool_run count] in *.
      - intros [= <-]. exact Hin.
      - destruct ev; cbn [is_free] in Hcount; try (apply IH; [exact Hin|lia]).
        + destruct (decide _); [discriminate|].
          apply IH; [set_solver|lia].
        + destruct (Nat.eqb_spec (ptr p) k); [lia|].
          destruct (decide _); [|discriminate].
          apply IH; [set_solver|lia]. }
    pose proof (Hkeeps evs live Hk Hnofree _ Hfree). set_solver.
  - right. split; [exact Hsame|]. lia.
Qed.


Lemma X17_deliver_settles_the_buffer_witness :
  match Server.deliver toy_engine.world toy_engine.in_use toy_engine.server
          toy_engine.initial
  with
  | Ret (_, evs) =>
      (pool_run evs toy_engine.in_use = Some (toy_engine.in_use ∖ {[ 7%nat ]})
       /\ count (is_free 7) evs = 1%nat /\ count (is_queued 7) evs = 0%nat)
      \/ (pool_run evs toy_engine.in_use = Some toy_engine.in_use
          /\ count (is_free 7) evs = 0%nat /\ count (is_queued 7) evs = 1%nat)
  | Panic => False
  end.
Proof.
  destruct (Server.deliver toy_engine.world toy_engine.in_use
              toy_engine.server toy_engine.initial) as [[s' evs]|] eqn:Hrun.
  - apply (X17_deliver_settles_the_buffer toy_engine.world toy_engine.in_use
             toy_engine.server s' toy_engine.initial evs); [|exact Hrun].
    apply (bool_decide_unpack _). vm_compute. exact I.
  - vm_compute in Hrun. discriminate Hrun.
Defined.

Section loops.
Context `{E : transport.Engine}.



Lemma Client_loop_stops (pre post : list reading) (rd : reading) (err : error)
    (live : gset nat) (s : Client.t) :
  Forall (fun x => read_error x = None) pre ->
  read_error rd = Some err ->
  Client_loop (pre ++ rd :: post) live s = Client_loop (pre ++ [rd]) live s
  /\ (Client_loop (pre ++ [rd]) live s).2 = Returned err.
Proof.
  intros Hpre Hfatal. revert live.
  induction Hpre as [|rd0 pre Hrd0 _ IH]; intros live.
  - cbn [app Client_loop]. unfold read_error in Hfatal.
    destruct (rd_err rd) as [[t err0]|]; [|discriminate].
    injection Hfatal as ->. split; reflexivity.
  - cbn [app Client_loop]. unfold read_error in Hrd0.
    destruct (rd_err rd0) as [[t err0]|]; [discriminate|].
    destruct (IH (pool_apply (Client_read rd0 live s) live)) as [Heq Hret].
    rewrite Heq. split; [reflexivity|exact Hret].
Qed.

Lemma Client_loop_goes_on (script : list reading) (live : gset nat)
    (s : Client.t) :
  Forall (fun x => read_error x = None) script ->
  (Client_loop script live s).2 = Blocked.
Proof.
  intros Hall. revert live.
  induction Hall as [|rd0 rest Hrd0 _ IH]; intros live; cbn [Client_loop].
  - reflexivity.
  - unfold read_error in Hrd0.
    destruct (rd_err rd0) as [[t err0]|]; [discriminate|]. apply IH.
Qed.
End loops.



(** X19: [Client.Serve] returns on the first read error of any kind, a
    timeout included (where the server's loop goes on): it returns that
    error after the datagram that came with it, if any, has gone through
    [recv], and what the socket would have given afterwards plays no
    part. While the reads give no error it keeps reading. *)
Theorem X19_Client_Serve_returns_on_any_error `{E : transport.Engine}
    (live : gset nat) (s : Client.t) :
  Client_Serve None live s = ([], Returned errNoSocket)
  /\ (forall script,
        Forall (fun x => read_error x = None) script ->
        (Client_Serve (Some script) live s).2 = Blocked)
  /\ (forall pre rd post err,
        Forall (fun x => read_error x = None) pre ->
        read_error rd = Some err ->
        Client_Serve (Some (pre ++ rd :: post)) live s
        = Client_Serve (Some (pre ++ [rd])) live s
        /\ (Client_Serve (Some (pre ++ [rd])) live s).2 = Returned err)
  /\ (forall rd t err,
        rd_err rd = Some (t, err) ->
        Client_Serve (Some [rd]) live s
        = (Log LevelInfo "listening %s" :: Client_read rd live s,
           Returned err)).
Proof.
  split; [reflexivity|]. split; [|split].
  - intros script Hall. unfold Client_Serve. cbn [snd].
    exact (Client_loop_goes_on script live s Hall).
  - intros pre rd post err Hpre Hfatal. unfold Client_Serve.
    destruct (Client_loop_stops pre post rd err live s Hpre Hfatal)
      as [Heq Hret].
    rewrite Heq. split; [reflexivity|exact Hret].
  - intros rd t err Herr. unfold Client_Serve. cbn [Client_loop].
    rewrite Herr. reflexivity.
Qed.

Lemma X19_Client_Serve_witness :
  Client_Serve
    (Some ([fixtures.read_initial] ++ fixtures.read_timeout
           :: [fixtures.read_more]))
    toy_engine.in_use toy_engine.idle
  = Client_Serve (Some ([fixtures.read_initial] ++ [fixtures.read_timeout]))
      toy_engine.in_use toy_engine.idle
  /\ (Client_Serve (Some ([fixtures.read_initial] ++ [fixtures.read_timeout]))
        toy_engine.in_use toy_engine.idle).2
     = Returned (ErrExternal "i/o timeout").
Proof.
  destruct (X19_Client_Serve_returns_on_any_error toy_engine.in_use
              toy_engine.idle) as (_ & _ & Hstop & _).
  apply (Hstop [fixtures.read_initial] fixtures.read_timeout
           [fixtures.read_more] (ErrExternal "i/o timeout")).
  - repeat constructor.
  - reflexivity.
Defined.

Section client_pool.
Context `{E : transport.Engine}.


End client_pool.


